(** * Hardware keyring call relay ([ClientKeyringController])

    A shallow embedding of the relay module of the extension UI
    (the file that imports [HARDWARE_KEYRINGS], [buildUnserializedTxFromHex]
    and [callBackgroundMethod]) together with the properties the design
    document states about it.

    The module is JavaScript: values are dynamically typed, any expression
    may throw, keyring instances are mutable objects shared through the
    controller's instance table.  The embedding therefore has
    - a small universe of JavaScript values ([JsValue]) with truthiness,
      property reads and [String(v)];
    - completions ([Normal] / [Throw]) and a state-and-exception monad [M]
      in which the [async] methods of the class are written ([await]
      sequences the awaited computation, a rejected promise is a [Throw]);
    - a store holding the controller object and a chronological log of the
      externally visible calls (keyring method calls, background calls).

    A keyring method is a function of its arguments and of the in-memory
    state of its instance; whatever a device or a user decides is part of
    that function.  Console output is not recorded.  One call is followed
    from its start to its completion: a call that never settles, and the
    interleaving of two calls at their [await] points, are outside the
    model.

    The second part embeds the end-to-end test driver that runs the
    extension in a browser ([Driver]): its locators, its filtering of
    browser errors, its polling for windows, its closing of windows, the
    [click] it installs on elements and its assertion of absence. *)

From Stdlib Require Import List String Ascii Bool ZArith NArith.
From Stdlib.Strings Require Import Byte.
From Stdlib Require Import DecimalString.
From Stdlib Require Import Lia.
Import ListNotations.
Local Open Scope string_scope.
Local Open Scope list_scope.

Set Implicit Arguments.

(* ================================================================== *)
(** ** JavaScript values *)

#[local] Set Warnings "-register-all".

(** The values that cross the relay.  Numbers are the integers that
    [String] prints as plain decimal digits (below [10^21] in magnitude);
    a transaction object (a [TypedTransaction] of [@ethereumjs/tx]) is
    represented by the bytes its [serialize()] method returns; an [Error]
    instance by its [name], [message] and [cause]. *)
Inductive JsValue : Type :=
| JUndefined
| JNull
| JBool (b : bool)
| JNum (n : Z)
| JStr (s : string)
| JArr (items : list JsValue)
| JObj (props : list (string * JsValue))
| JTx (serialized : list byte)
| JError (name message : string) (cause : JsValue).

(** Result of evaluating an expression or awaiting a promise. *)
Inductive Completion (A : Type) : Type :=
| Normal (a : A)
| Throw (e : JsValue).
Arguments Normal {A} a.
Arguments Throw {A} e.

(** [new TypeError(message)] *)
Definition TypeError (message : string) : JsValue :=
  JError "TypeError" message JUndefined.

(** ToBoolean: the falsy values are [undefined], [null], [false], [0]
    and the empty string. *)
Definition truthy (v : JsValue) : bool :=
  match v with
  | JUndefined | JNull => false
  | JBool b => b
  | JNum n => negb (Z.eqb n 0)
  | JStr s => negb (String.eqb s "")
  | JArr _ | JObj _ | JTx _ | JError _ _ _ => true
  end.

(** Own data property of an object literal. *)
Fixpoint lookup (k : string) (props : list (string * JsValue)) : JsValue :=
  match props with
  | [] => JUndefined
  | (k', v) :: rest => if String.eqb k' k then v else lookup k rest
  end.

(** [v.k] for the property names this module reads ([message], [cause],
    [serialize]): reading a property of [undefined] or [null] throws, a
    primitive or an array has none of them, an [Error] has [name],
    [message] and [cause]. *)
Definition js_get (v : JsValue) (k : string) : Completion JsValue :=
  match v with
  | JUndefined =>
      Throw (TypeError ("Cannot read properties of undefined (reading '" ++ k ++ "')"))
  | JNull =>
      Throw (TypeError ("Cannot read properties of null (reading '" ++ k ++ "')"))
  | JObj props => Normal (lookup k props)
  | JError name message cause =>
      if String.eqb k "message" then Normal (JStr message)
      else if String.eqb k "cause" then Normal cause
      else if String.eqb k "name" then Normal (JStr name)
      else Normal JUndefined
  | JBool _ | JNum _ | JStr _ | JArr _ | JTx _ => Normal JUndefined
  end.

(** [Array.prototype.join(",")] over already converted elements. *)
Fixpoint join_comma (l : list string) : string :=
  match l with
  | [] => ""
  | [s] => s
  | s :: rest => s ++ "," ++ join_comma rest
  end.

(** [String(v)] *)
Fixpoint js_String (v : JsValue) : string :=
  match v with
  | JUndefined => "undefined"
  | JNull => "null"
  | JBool true => "true"
  | JBool false => "false"
  | JNum n => NilZero.string_of_int (Z.to_int n)
  | JStr s => s
  | JArr items =>
      join_comma
        ((fix elems (l : list JsValue) : list string :=
            match l with
            | [] => []
            | JUndefined :: l' => "" :: elems l'
            | JNull :: l' => "" :: elems l'
            | x :: l' => js_String x :: elems l'
            end) items)
  | JObj _ => "[object Object]"
  | JTx _ => "[object Object]"
  | JError name message _ =>
      if String.eqb name "" then message
      else if String.eqb message "" then name
      else name ++ ": " ++ message
  end.

(** [bufferToHex] of [ethereumjs-util]: ["0x"] followed by two lower-case
    hexadecimal digits per byte. *)
Definition hexDigit (n : N) : ascii :=
  match n with
  | 0%N => "0" | 1%N => "1" | 2%N => "2" | 3%N => "3"
  | 4%N => "4" | 5%N => "5" | 6%N => "6" | 7%N => "7"
  | 8%N => "8" | 9%N => "9" | 10%N => "a" | 11%N => "b"
  | 12%N => "c" | 13%N => "d" | 14%N => "e" | _ => "f"
  end%char.

Fixpoint hexOfBytes (bs : list byte) : string :=
  match bs with
  | [] => ""
  | b :: rest =>
      String (hexDigit (N.div (Byte.to_N b) 16))
        (String (hexDigit (N.modulo (Byte.to_N b) 16)) (hexOfBytes rest))
  end.

Definition bufferToHex (bs : list byte) : string := "0x" ++ hexOfBytes bs.

(* ================================================================== *)
(** ** Keyrings, messages and the store *)

(** A keyring method: from the call arguments and the in-memory state of
    the instance to the completion of the awaited call and the state the
    instance is left in. *)
Definition Method : Type :=
  list JsValue -> JsValue -> Completion JsValue * JsValue.

(** A keyring instance: its [type] property, its in-memory state and the
    callable properties reachable by name ([keyring[name]]). *)
Record Keyring : Type := {
  kr_type : string;
  kr_state : JsValue;
  kr_methods : string -> option Method
}.

(** An entry of [HARDWARE_KEYRINGS]: the static [type] of the class and
    the instance [new KeyringClass()] creates. *)
Record KeyringClass : Type := {
  cls_type : string;
  cls_new : Keyring
}.

(** The call request [{ type, method, args, prevState, promiseId }]. *)
Record CallRequest : Type := {
  req_type : string;
  req_method : string;
  req_args : list JsValue;
  req_prevState : JsValue;
  req_promiseId : JsValue
}.

(** The call result [{ promiseId, result, data }]. *)
Record CallResult : Type := {
  promiseId : JsValue;
  result : string;
  data : JsValue
}.

(** Externally visible calls, in the order they happen.  A keyring call
    records the state the instance was in when the call started. *)
Inductive Event : Type :=
| EvKeyringCall (type method : string) (args : list JsValue) (state : JsValue)
| EvBackgroundCall (method : string) (args : list CallResult)
| EvUnhandledRejection (e : JsValue).

Record ClientKeyringController : Type := {
  keyrings : list KeyringClass;
  keyringInstances : list Keyring
}.

(** What a method of the controller runs against: the controller object
    itself and the log. *)
Record Store : Type := {
  this : ClientKeyringController;
  log : list Event
}.

(** The module-level state of the page: the [clientKeyringController]
    variable, whether the document has focus, and the log. *)
Record Page : Type := {
  clientKeyringController : option ClientKeyringController;
  document_hasFocus : bool;
  page_log : list Event
}.

(* ------------------------------------------------------------------ *)
(** *** The monad of controller methods *)

Definition M (A : Type) : Type := Store -> Completion A * Store.

Definition ret {A} (a : A) : M A := fun s => (Normal a, s).

Definition throw {A} (e : JsValue) : M A := fun s => (Throw e, s).

Definition bind {A B} (m : M A) (k : A -> M B) : M B :=
  fun s =>
    match m s with
    | (Normal a, s') => k a s'
    | (Throw e, s') => (Throw e, s')
    end.

(** [try { body } catch (e) { handler }] *)
Definition try_catch {A} (body : M A) (handler : JsValue -> M A) : M A :=
  fun s =>
    match body s with
    | (Normal a, s') => (Normal a, s')
    | (Throw e, s') => handler e s'
    end.

(** A pure expression that may throw. *)
Definition lift {A} (c : Completion A) : M A := fun s => (c, s).

Notation "x <- m ;; k" := (bind m (fun x => k))
  (at level 61, m at next level, right associativity).
Notation "m ;;; k" := (bind m (fun _ => k))
  (at level 61, right associativity).

(* ------------------------------------------------------------------ *)
(** *** Array helpers *)

(** Index of the first element satisfying [p]: the object
    [Array.prototype.find] returns, as a reference into the array. *)
Fixpoint findIndex {A} (p : A -> bool) (l : list A) : option nat :=
  match l with
  | [] => None
  | x :: rest => if p x then Some 0 else option_map S (findIndex p rest)
  end.

Fixpoint updateAt {A} (i : nat) (f : A -> A) (l : list A) : list A :=
  match l, i with
  | [], _ => []
  | x :: rest, 0 => f x :: rest
  | x :: rest, S j => x :: updateAt j f rest
  end.

Definition setState (st : JsValue) (k : Keyring) : Keyring :=
  {| kr_type := kr_type k; kr_state := st; kr_methods := kr_methods k |}.

(* ------------------------------------------------------------------ *)
(** *** Reading the log *)

(** The outcome messages: the arguments of the [closeBackgroundPromise]
    calls. *)
Fixpoint outcomes (l : list Event) : list CallResult :=
  match l with
  | [] => []
  | EvBackgroundCall m args :: rest =>
      if String.eqb m "closeBackgroundPromise" then args ++ outcomes rest
      else outcomes rest
  | _ :: rest => outcomes rest
  end.

(** The unhandled rejections recorded in a log. *)
Fixpoint rejections (l : list Event) : list JsValue :=
  match l with
  | [] => []
  | EvUnhandledRejection e :: rest => e :: rejections rest
  | _ :: rest => rejections rest
  end.

(* ================================================================== *)
(** ** The end-to-end test driver

    The [Driver] class wraps a Selenium WebDriver.  What the browser
    answers is not the driver's doing: a [Browser] gives, for the commands
    sent so far and the next command, whether that command throws and what
    it returns.  A method of the driver runs against the list of commands
    sent so far and appends to it. *)

(** [s.startsWith(pre)] *)
Fixpoint startsWith (s pre : string) {struct pre} : bool :=
  match pre with
  | EmptyString => true
  | String a pre' =>
      match s with
      | EmptyString => false
      | String b s' => if Ascii.eqb a b then startsWith s' pre' else false
      end
  end.

(** [s.includes(sub)] *)
Fixpoint includes (s sub : string) {struct s} : bool :=
  if startsWith s sub then true
  else match s with
       | EmptyString => false
       | String _ s' => includes s' sub
       end.

(** [s.split(' ').join('')] *)
Fixpoint removeSpaces (s : string) : string :=
  match s with
  | EmptyString => EmptyString
  | String a s' =>
      if Ascii.eqb a " "%char then removeSpaces s' else String a (removeSpaces s')
  end.

(** [v.includes(needle)] for a string [needle]: substring test on a string,
    membership test on an array, a [TypeError] on anything else. *)
Definition js_includes (callee : string) (v : JsValue) (needle : string)
    : Completion bool :=
  match v with
  | JStr s => Normal (includes s needle)
  | JArr items =>
      Normal (existsb (fun x => match x with
                                | JStr s => String.eqb s needle
                                | _ => false
                                end) items)
  | JUndefined =>
      Throw (TypeError "Cannot read properties of undefined (reading 'includes')")
  | JNull =>
      Throw (TypeError "Cannot read properties of null (reading 'includes')")
  | _ => Throw (TypeError (callee ++ ".includes is not a function"))
  end.

(** [items.join(sep)]: [undefined] and [null] give the empty string. *)
Fixpoint js_join (sep : string) (items : list JsValue) : string :=
  let elem (x : JsValue) : string :=
    match x with
    | JUndefined | JNull => ""
    | _ => js_String x
    end in
  match items with
  | [] => ""
  | [x] => elem x
  | x :: rest => elem x ++ sep ++ js_join sep rest
  end.

(* ------------------------------------------------------------------ *)
(** *** Locators *)

(** A Selenium locator [new By(using, value)]. *)
Record By : Type := {
  by_using : string;
  by_value : JsValue
}.

(** [By.css(selector)] and [By.xpath(xpath)] *)
Definition By_css (selector : JsValue) : By :=
  {| by_using := "css selector"; by_value := selector |}.

Definition By_xpath (xpath : JsValue) : By :=
  {| by_using := "xpath"; by_value := xpath |}.

(** What a test passes as a locator: a string, a [By], an inline locator
    object, or (by mistake) something else. *)
Inductive Locator : Type :=
| LocString (s : string)
| LocBy (b : By)
| LocObject (props : list (string * JsValue))
| LocNumber (n : Z)
| LocBool (b : bool)
| LocUndefined
| LocNull.

(** [String(locator)]; a [By] prints as [By(using, value)]. *)
Definition locatorString (locator : Locator) : string :=
  match locator with
  | LocString s => s
  | LocBy b => "By(" ++ by_using b ++ ", " ++ js_String (by_value b) ++ ")"
  | LocObject _ => "[object Object]"
  | LocNumber n => js_String (JNum n)
  | LocBool b => js_String (JBool b)
  | LocUndefined => "undefined"
  | LocNull => "null"
  end.

(** ToBoolean of a locator. *)
Definition locatorTruthy (locator : Locator) : bool :=
  match locator with
  | LocString s => negb (String.eqb s "")
  | LocBy _ | LocObject _ => true
  | LocNumber n => negb (Z.eqb n 0)
  | LocBool b => b
  | LocUndefined | LocNull => false
  end.

(** [locator.value] *)
Definition locatorValue (locator : Locator) : JsValue :=
  match locator with
  | LocBy b => by_value b
  | LocObject props => lookup "value" props
  | _ => JUndefined
  end.

(** The [css-to-xpath] library, as [buildLocator] uses it.
    [cssWhereContains css text stripped] is
    [cssToXPath.parse(css).where(string().contains(text).or(string().contains(stripped))).toXPath()];
    when [text] is not a string, [text.split] cannot be called and the
    expression throws ([cssRejects css text] is what it throws, the
    library's own error or the [TypeError]). *)
Record CssToXPath : Type := {
  cssWhereContains : JsValue -> string -> string -> Completion string;
  cssRejects : JsValue -> JsValue -> JsValue
}.

(** [buildLocator(locator)] *)
Definition buildLocator (lib : CssToXPath) (locator : Locator)
    : Completion Locator :=
  let unsupported :=
    Throw (JError "Error"
             ("The locator '" ++ locatorString locator
              ++ "' is not supported by the E2E test driver") JUndefined) in
  match locator with
  | LocString s => Normal (LocBy (By_css (JStr s)))
  | LocBy b => if truthy (by_value b) then Normal locator else unsupported
  | LocObject props =>
      if truthy (lookup "value" props) then Normal locator
      else if truthy (lookup "xpath" props) then
        Normal (LocBy (By_xpath (lookup "xpath" props)))
      else if truthy (lookup "text" props) then
        if truthy (lookup "css" props) then
          match lookup "text" props with
          | JStr text =>
              match cssWhereContains lib (lookup "css" props) text
                      (removeSpaces text) with
              | Normal xpath => Normal (LocBy (By_xpath (JStr xpath)))
              | Throw e => Throw e
              end
          | text => Throw (cssRejects lib (lookup "css" props) text)
          end
        else
          Normal (LocBy (By_xpath (JStr
            ("//" ++ match lookup "tag" props with
                     | JUndefined | JNull => "*"
                     | tag => js_String tag
                     end
             ++ "[contains(text(), '" ++ js_String (lookup "text" props) ++ "')]"))))
      else unsupported
  | LocNumber _ | LocBool _ => unsupported
  | LocUndefined =>
      Throw (TypeError "Cannot read properties of undefined (reading 'value')")
  | LocNull =>
      Throw (TypeError "Cannot read properties of null (reading 'value')")
  end.

(* ------------------------------------------------------------------ *)
(** *** Browser errors *)

(** [isInIgnoreList(errorMessage, ignoreList)] *)
Definition isInIgnoreList (errorMessage : string) (ignoreList : list string)
    : bool :=
  existsb (fun ignore => includes errorMessage ignore) ignoreList.

(** [logBrowserError(ignoredConsoleErrors, errorMessage)]: whether the
    message is to be ignored.  The message is whatever the browser
    reported; [startsWith] exists on strings only. *)
Definition logBrowserError (ignoredConsoleErrors : list string)
    (errorMessage : JsValue) : Completion bool :=
  match errorMessage with
  | JStr message =>
      Normal (if startsWith message "Warning:" then true
              else isInIgnoreList message ignoredConsoleErrors)
  | JUndefined =>
      Throw (TypeError "Cannot read properties of undefined (reading 'startsWith')")
  | JNull =>
      Throw (TypeError "Cannot read properties of null (reading 'startsWith')")
  | _ => Throw (TypeError "errorMessage.startsWith is not a function")
  end.

(** An argument of a console event (a remote object of the DevTools
    protocol) and the event itself. *)
Record RemoteObject : Type := {
  ro_description : JsValue;
  ro_value : JsValue
}.

Record ConsoleEvent : Type := {
  ce_type : string;
  ce_args : list RemoteObject
}.

(** [#getErrorFromEvent(event)]; [sprintf] is the [sprintf-js] function. *)
Definition getErrorFromEvent (sprintf : list JsValue -> Completion string)
    (event : ConsoleEvent) : Completion string :=
  let values := map ro_value (ce_args event) in
  match js_includes "values[0]" (nth 0 values JUndefined) "%s" with
  | Throw e => Throw e
  | Normal true => sprintf values
  | Normal false => Normal (js_join " " values)
  end.

(** The entries [checkBrowserForConsoleErrors] always ignores. *)
Definition alwaysIgnoredConsoleErrors : list string :=
  [ "favicon.ico - Failed to load resource: the server responded with a status of 404";
    "Failed to load resource: the server responded with a status of 429";
    "Failed to load resource: the server responded with a status of 502 (Bad Gateway)" ].

(** The listener [checkBrowserForConsoleErrors] registers: from the list
    [this.errors] to the list after the event. *)
Definition onConsoleEvent (sprintf : list JsValue -> Completion string)
    (_ignoredConsoleErrors : list string) (event : ConsoleEvent)
    (errors : list JsValue) : Completion (list JsValue) :=
  let ignoredConsoleErrors := _ignoredConsoleErrors ++ alwaysIgnoredConsoleErrors in
  if String.eqb (ce_type event) "error" then
    let eventDescriptions :=
      filter (fun err => match ro_description err with
                         | JUndefined => false
                         | _ => true
                         end) (ce_args event) in
    match eventDescriptions with
    | eventDescription :: _ =>
        match logBrowserError ignoredConsoleErrors (ro_description eventDescription) with
        | Throw e => Throw e
        | Normal true => Normal errors
        | Normal false => Normal (errors ++ [ro_description eventDescription])
        end
    | [] =>
        match ce_args event with
        | [] => Normal errors
        | _ :: _ =>
            match getErrorFromEvent sprintf event with
            | Throw e => Throw e
            | Normal newError =>
                match logBrowserError ignoredConsoleErrors (JStr newError) with
                | Throw e => Throw e
                | Normal true => Normal errors
                | Normal false => Normal (errors ++ [JStr newError])
                end
            end
        end
    end
  else Normal errors.

(** The listener [checkBrowserForExceptions] registers: from the list
    [this.exceptions] to the list after the exception. *)
Definition onException (ignoredConsoleErrors : list string)
    (description : JsValue) (exceptions : list JsValue)
    : Completion (list JsValue) :=
  match logBrowserError ignoredConsoleErrors description with
  | Throw e => Throw e
  | Normal true => Normal exceptions
  | Normal false => Normal (exceptions ++ [description])
  end.

(** [summarizeErrorsAndExceptions()] *)
Definition summarizeErrorsAndExceptions (errors exceptions : list JsValue)
    : string :=
  js_join (String (ascii_of_nat 10) "") (errors ++ exceptions).

(* ------------------------------------------------------------------ *)
(** *** The browser *)

(** What the driver does to the browser (and the pauses it takes). *)
Inductive Action : Type :=
| ActGetAllWindowHandles
| ActSwitchToWindow (handle : string)
| ActClose
| ActDelay (ms : Z)
| ActWaitLocated (locator : Locator) (timeout : Z)
| ActWaitNotPresent (locator : Locator) (timeout : Z)
| ActOriginalClick (element : nat).

(** The browser's side: given the actions taken so far, whether the next
    action throws (and what), the window handles it reports and the element
    it locates. *)
Record Browser : Type := {
  br_throws : list Action -> Action -> option JsValue;
  br_handles : list Action -> list string;
  br_element : list Action -> nat
}.

(** The monad of driver methods: the actions taken so far are threaded
    through. *)
Definition B (A : Type) : Type := list Action -> Completion A * list Action.

Definition retB {A} (a : A) : B A := fun sent => (Normal a, sent).

Definition liftB {A} (c : Completion A) : B A := fun sent => (c, sent).

Definition bindB {A C} (m : B A) (k : A -> B C) : B C :=
  fun sent =>
    match m sent with
    | (Normal a, sent') => k a sent'
    | (Throw e, sent') => (Throw e, sent')
    end.

Notation "x <~ m ;; k" := (bindB m (fun x => k))
  (at level 61, m at next level, right associativity).
Notation "m ~;; k" := (bindB m (fun _ => k))
  (at level 61, right associativity).

(** A WebDriver command without a result of interest. *)
Definition command (b : Browser) (a : Action) : B unit :=
  fun sent =>
    (match br_throws b sent a with
     | Some e => Throw e
     | None => Normal tt
     end, sent ++ [a]).

(** [this.delay(time)]: a timer; it cannot fail. *)
Definition delay (ms : Z) : B unit :=
  fun sent => (Normal tt, sent ++ [ActDelay ms]).

(** [this.driver.getAllWindowHandles()] *)
Definition getAllWindowHandles (b : Browser) : B (list string) :=
  fun sent =>
    (match br_throws b sent ActGetAllWindowHandles with
     | Some e => Throw e
     | None => Normal (br_handles b sent)
     end, sent ++ [ActGetAllWindowHandles]).

(** [this.driver.wait(until.elementLocated(locator), timeout)] *)
Definition waitLocated (b : Browser) (locator : Locator) (timeout : Z) : B nat :=
  fun sent =>
    (match br_throws b sent (ActWaitLocated locator timeout) with
     | Some e => Throw e
     | None => Normal (br_element b sent)
     end, sent ++ [ActWaitLocated locator timeout]).

(** The loop of [waitUntilXWindowHandles(x, delayStep, timeout)], started
    with [timeElapsed].  The loop need not end; [fuel] bounds the number of
    rounds followed, and [None] says the bound was reached. *)
Fixpoint waitUntilXWindowHandles_from (b : Browser) (fuel : nat)
    (x delayStep timeout timeElapsed : Z) (sent : list Action)
    : option (Completion (list string) * list Action) :=
  match fuel with
  | O => None
  | S fuel' =>
      if Z.leb timeElapsed timeout then
        match getAllWindowHandles b sent with
        | (Throw e, sent1) => Some (Throw e, sent1)
        | (Normal windowHandles, sent1) =>
            if Z.eqb (Z.of_nat (List.length windowHandles)) x
            then Some (Normal windowHandles, sent1)
            else waitUntilXWindowHandles_from b fuel' x delayStep timeout
                   (timeElapsed + delayStep) (sent1 ++ [ActDelay delayStep])
        end
      else
        Some (Throw (JError "Error"
                       "waitUntilXWindowHandles timed out polling window handles"
                       JUndefined),
              sent)
  end.

(** [waitUntilXWindowHandles(x, delayStep, timeout)] *)
Definition waitUntilXWindowHandles (b : Browser) (fuel : nat)
    (x delayStep timeout : Z) (sent : list Action)
    : option (Completion (list string) * list Action) :=
  waitUntilXWindowHandles_from b fuel x delayStep timeout 0 sent.

(** The number of polls among some actions. *)
Fixpoint polls (l : list Action) : nat :=
  match l with
  | [] => O
  | ActGetAllWindowHandles :: rest => S (polls rest)
  | _ :: rest => polls rest
  end.

(** The [for] loop of [closeAllWindowHandlesExcept]. *)
Fixpoint closeEachExcept (b : Browser) (exceptions windowHandles : list string)
    : B unit :=
  match windowHandles with
  | [] => retB tt
  | handle :: rest =>
      if existsb (String.eqb handle) exceptions
      then closeEachExcept b exceptions rest
      else
        command b (ActSwitchToWindow handle) ~;;
        delay 1000 ~;;
        command b ActClose ~;;
        delay 1000 ~;;
        closeEachExcept b exceptions rest
  end.

(** [closeAllWindowHandlesExcept(exceptions, windowHandles)]; [None] is an
    omitted second argument. *)
Definition closeAllWindowHandlesExcept (b : Browser) (exceptions : list string)
    (windowHandles : option (list string)) : B unit :=
  handles <~ match windowHandles with
             | Some given => retB given
             | None => getAllWindowHandles b
             end ;;
  closeEachExcept b exceptions handles.

(** The actions one closed window takes. *)
Definition closingOf (handle : string) : list Action :=
  [ActSwitchToWindow handle; ActDelay 1000; ActClose; ActDelay 1000].

(** The double quote character, and the two page fragments the patched
    [click] looks for in the message of an interception. *)
Definition dquote : string := String (ascii_of_nat 34) EmptyString.

Definition loadingOverlayTag : string :=
  "<div class=" ++ dquote ++ "mm-box loading-overlay" ++ dquote ++ ">".

Definition modalBackdropTag : string :=
  "<div class=" ++ dquote ++ "modal__backdrop" ++ dquote ++ ">".

(** The [click] method [wrapElementWithAPI] installs on an element;
    [timeout] is [driver.timeout], the default of [driver.wait]. *)
Definition elementClick (b : Browser) (timeout : Z) (element : nat) : B unit :=
  fun sent =>
    match command b (ActOriginalClick element) sent with
    | (Normal _, sent1) => (Normal tt, sent1)
    | (Throw e, sent1) =>
        match js_get e "name" with
        | Throw x => (Throw x, sent1)
        | Normal name =>
            if match name with
               | JStr n => String.eqb n "ElementClickInterceptedError"
               | _ => false
               end
            then
              (message <~ liftB (js_get e "message") ;;
               overlay <~ liftB (js_includes "e.message" message loadingOverlayTag) ;;
               (if overlay
                then command b (ActWaitNotPresent
                                  (LocBy (By_css (JStr ".loading-overlay"))) timeout)
                else retB tt) ~;;
               message' <~ liftB (js_get e "message") ;;
               backdrop <~ liftB (js_includes "e.message" message' modalBackdropTag) ;;
               (if backdrop
                then command b (ActWaitNotPresent
                                  (LocBy (By_css (JStr ".modal__backdrop"))) timeout)
                else retB tt) ~;;
               command b (ActOriginalClick element)) sent1
            else (Throw e, sent1)
        end
    end.

(** The original clicks among some actions. *)
Fixpoint clicks (l : list Action) : nat :=
  match l with
  | [] => O
  | ActOriginalClick _ :: rest => S (clicks rest)
  | _ :: rest => clicks rest
  end.

(** [findElement(rawLocator)]; [timeout] is [this.timeout]. *)
Definition findElement (b : Browser) (lib : CssToXPath) (timeout : Z)
    (rawLocator : Locator) : B nat :=
  locator <~ liftB (buildLocator lib rawLocator) ;;
  waitLocated b locator timeout.

(** [assertElementNotPresent(rawLocator, { findElementGuard,
    waitAtLeastGuard, timeout })], the three options given (their defaults
    are [''], [0] and [this.timeout]).  [stringify] is [JSON.stringify],
    [assertionError] the error a failed [assert] throws, [thisTimeout] is
    [this.timeout]. *)
Definition assertElementNotPresent (b : Browser) (lib : CssToXPath)
    (stringify : Locator -> string) (assertionError : JsValue) (thisTimeout : Z)
    (rawLocator findElementGuard : Locator) (waitAtLeastGuard timeout : Z)
    : B unit :=
  (if Z.ltb waitAtLeastGuard timeout then retB tt
   else liftB (Throw assertionError)) ~;;
  (if Z.ltb 0 waitAtLeastGuard then delay waitAtLeastGuard else retB tt) ~;;
  (if locatorTruthy findElementGuard
   then findElement b lib thisTimeout findElementGuard ~;; retB tt
   else retB tt) ~;;
  locator <~ liftB (buildLocator lib rawLocator) ;;
  fun sent =>
    match command b (ActWaitNotPresent locator (timeout - waitAtLeastGuard)) sent with
    | (Normal _, sent1) => (Normal tt, sent1)
    | (Throw _, sent1) =>
        (Throw (JError "Error"
                  ("Found element " ++ stringify rawLocator
                   ++ " that should not be present") JUndefined),
         sent1)
    end.

(** The time the driver asks for: pauses and wait limits. *)
Fixpoint askedTime (l : list Action) : Z :=
  match l with
  | [] => 0
  | ActDelay ms :: rest => ms + askedTime rest
  | ActWaitLocated _ t :: rest => t + askedTime rest
  | ActWaitNotPresent _ t :: rest => t + askedTime rest
  | _ :: rest => askedTime rest
  end%Z.

(* ================================================================== *)
(** ** A sample environment

    [HARDWARE_KEYRINGS] and [buildUnserializedTxFromHex] are imported by the
    relay; the relay is generic in them.  The sample below is used to run
    the relay on concrete requests. *)

Definition hexVal (c : ascii) : option N :=
  let n := N_of_ascii c in
  if andb (N.leb 48 n) (N.leb n 57) then Some (n - 48)%N
  else if andb (N.leb 97 n) (N.leb n 102) then Some (n - 87)%N
  else if andb (N.leb 65 n) (N.leb n 70) then Some (n - 55)%N
  else None.

Fixpoint bytesOfHex (s : string) : option (list byte) :=
  match s with
  | EmptyString => Some []
  | String a (String b rest) =>
      match hexVal a, hexVal b, bytesOfHex rest with
      | Some h, Some l, Some bs =>
          match Byte.of_N (16 * h + l) with
          | Some x => Some (x :: bs)
          | None => None
          end
      | _, _, _ => None
      end
  | String _ EmptyString => None
  end.

(** Sample [buildUnserializedTxFromHex]: a ["0x"]-prefixed hex string is
    decoded into a transaction object, anything else throws. *)
Definition sampleBuildTx (v : JsValue) : Completion JsValue :=
  match v with
  | JStr (String "0" (String "x" digits)) =>
      match bytesOfHex digits with
      | Some bs => Normal (JTx bs)
      | None => Throw (JError "Error" "invalid hex string" JUndefined)
      end
  | _ => Throw (JError "Error" "invalid transaction" JUndefined)
  end.

(** Sample keyring methods.  [deserialize] replaces the in-memory state
    (and fails on [null]); [serialize] returns it; [signTransaction] signs
    when the state says the user approves and throws
    [Error("User rejected")] otherwise; [getAppName] returns a value
    without touching the state; [abort] rejects with no reason at all. *)
Definition sampleDeserialize : Method :=
  fun args st =>
    match nth 0 args JUndefined with
    | JNull => (Throw (TypeError "Cannot read properties of null (reading 'hdPath')"), st)
    | d => (Normal JUndefined, d)
    end.

Definition sampleSerialize : Method := fun _ st => (Normal st, st).

Definition sampleSignTransaction : Method :=
  fun args st =>
    match nth 1 args JUndefined, js_get st "approve" with
    | JTx bs, Normal a =>
        if truthy a
        then (Normal (JTx (bs ++ [x1b]%byte)),
              JObj [("approve", a); ("signed", JBool true)])
        else (Throw (JError "Error" "User rejected" JUndefined), st)
    | _, _ => (Throw (TypeError "tx.getMessageToSign is not a function"), st)
    end.

Definition sampleGetAppName : Method := fun _ st => (Normal (JStr "Ethereum"), st).

Definition sampleAbort : Method := fun _ st => (Throw JUndefined, st).

Definition sampleMethods (name : string) : option Method :=
  if String.eqb name "deserialize" then Some sampleDeserialize
  else if String.eqb name "serialize" then Some sampleSerialize
  else if String.eqb name "signTransaction" then Some sampleSignTransaction
  else if String.eqb name "getAppName" then Some sampleGetAppName
  else if String.eqb name "abort" then Some sampleAbort
  else None.

Definition sampleKeyringClass (type : string) : KeyringClass :=
  {| cls_type := type;
     cls_new := {| kr_type := type; kr_state := JObj []; kr_methods := sampleMethods |} |}.

Definition SAMPLE_KEYRINGS : list KeyringClass :=
  [sampleKeyringClass "ledger"; sampleKeyringClass "trezor"].

Definition sampleState (approve : bool) : JsValue :=
  JObj [("approve", JBool approve)].

Definition sampleRequest (type method : string) (args : list JsValue)
    (prevState : JsValue) : CallRequest :=
  {| req_type := type; req_method := method; req_args := args;
     req_prevState := prevState; req_promiseId := JStr "p1" |}.

Definition emptyPage (focus : bool) : Page :=
  {| clientKeyringController := None; document_hasFocus := focus; page_log := [] |}.

(** The sample requests: the scenario of the design document
    ([signTransaction] on the ["ledger"] keyring), a call of another
    method, and a call for a keyring type that is not a hardware keyring. *)
Definition signRequest (prevState : JsValue) : CallRequest :=
  sampleRequest "ledger" "signTransaction"
    [JStr "m/44'/60'/0'/0/0"; JStr "0x01ff"] prevState.

Definition appNameRequest : CallRequest :=
  sampleRequest "ledger" "getAppName" [JNum 7] (sampleState true).

Definition unsupportedRequest : CallRequest :=
  sampleRequest "HD Key Tree" "signTransaction"
    [JStr "m/44'/60'/0'/0/0"; JStr "0x01ff"] (sampleState true).

(** A sample [css-to-xpath]: a string selector gives a path testing the
    string value of the element, anything else is rejected. *)
Definition sampleCssToXPath : CssToXPath :=
  {| cssWhereContains := fun css text stripped =>
       match css with
       | JStr selector =>
           Normal ("//" ++ selector ++ "[contains(string(), '" ++ text
                   ++ "') or contains(string(), '" ++ stripped ++ "')]")%string
       | _ => Throw (JError "Error" "Rule expected but not found." JUndefined)
       end;
     cssRejects := fun _ _ => TypeError "locator.text.split is not a function" |}.

(** A sample [sprintf]: the substitutions are appended to the format. *)
Definition sampleSprintf (values : list JsValue) : Completion string :=
  Normal (js_join " " values).

(** A browser in which every command succeeds and the windows are always
    [handles]. *)
Definition quietBrowser (handles : list string) : Browser :=
  {| br_throws := fun _ _ => None;
     br_handles := fun _ => handles;
     br_element := fun _ => O |}.

(** A browser in which every click and every wait fails with [e]; the
    windows are ["main"] and ["popup"]. *)
Definition failingBrowser (e : JsValue) : Browser :=
  {| br_throws := fun _ a =>
       match a with
       | ActOriginalClick _ | ActWaitLocated _ _ | ActWaitNotPresent _ _ => Some e
       | _ => None
       end;
     br_handles := fun _ => ["main"; "popup"];
     br_element := fun _ => O |}.

(** A console event reporting a failed request through its arguments. *)
Definition sampleConsoleEvent : ConsoleEvent :=
  {| ce_type := "error";
     ce_args := [ {| ro_description := JUndefined; ro_value := JStr "Failed to fetch" |};
                  {| ro_description := JUndefined; ro_value := JNum 404 |} ] |}.


(* ================================================================== *)
(** ** The relay *)

Section Relay.

(** The table of supported hardware keyring classes
    ([shared/constants/hardware-wallets]). *)
Variable HARDWARE_KEYRINGS : list KeyringClass.

(** [buildUnserializedTxFromHex] ([helpers/utils/transactions.util]):
    decodes the hex wire form of a transaction into a transaction object,
    or throws. *)
Variable buildUnserializedTxFromHex : JsValue -> Completion JsValue.

(** [processKeyringResponse(res, method)].  [res?.serialize] is undefined
    for [undefined], [null], primitives, arrays and errors; a transaction
    object has the method; a data object holding a truthy, non-callable
    [serialize] makes the call throw. *)
Definition processKeyringResponse (res : JsValue) (method : string)
    : Completion JsValue :=
  if String.eqb method "signTransaction" then
    match res with
    | JTx serialized => Normal (JStr (bufferToHex serialized))
    | JUndefined | JNull => Normal res
    | _ =>
        match js_get res "serialize" with
        | Normal f =>
            if truthy f then Throw (TypeError "res.serialize is not a function")
            else Normal res
        | Throw e => Throw e
        end
    end
  else Normal res.

(** [processArgs(args, method)] *)
Definition processArgs (args : list JsValue) (method : string)
    : Completion (list JsValue) :=
  if String.eqb method "signTransaction" then
    match buildUnserializedTxFromHex (nth 1 args JUndefined) with
    | Normal tx => Normal (nth 0 args JUndefined :: tx :: skipn 2 args)
    | Throw e => Throw e
    end
  else Normal args.

(** [new ClientKeyringController()] *)
Definition newClientKeyringController : ClientKeyringController :=
  {| keyrings := HARDWARE_KEYRINGS;
     keyringInstances := map cls_new HARDWARE_KEYRINGS |}.

(** [getKeyringClassForType(type)]; [None] is [undefined]. *)
Definition getKeyringClassForType (type : string)
    (c : ClientKeyringController) : option KeyringClass :=
  find (fun kr => String.eqb (cls_type kr) type) (keyrings c).

(** [getKeyringInstanceForType(type)]: a reference to the instance found
    (its position in [keyringInstances]); [None] is [undefined]. *)
Definition getKeyringInstanceForType (type : string)
    (c : ClientKeyringController) : option nat :=
  findIndex (fun kr => String.eqb (kr_type kr) type) (keyringInstances c).

(** [this.getKeyringInstanceForType(type)] inside a method. *)
Definition thisKeyringInstanceForType (type : string) : M (option nat) :=
  fun s => (Normal (getKeyringInstanceForType type (this s)), s).

(** The store once the instance [r] refers to has run a method that left
    it in state [st'], [ev] being the record of the call. *)
Definition afterCall (s : Store) (r : nat) (st' : JsValue) (ev : Event) : Store :=
  {| this :=
       {| keyrings := keyrings (this s);
          keyringInstances := updateAt r (setState st') (keyringInstances (this s)) |};
     log := log s ++ [ev] |}.

(** [await keyring[name](...args)] on the instance [keyring] refers to:
    throws a [TypeError] when [keyring] is [undefined] or has no callable
    [name]; otherwise runs the method on the instance, which is updated in
    place.  [callee] is the text of the called expression, which the
    engine quotes in the error message. *)
Definition callKeyring (callee : string) (keyring : option nat) (name : string)
    (args : list JsValue) : M JsValue :=
  fun s =>
    match keyring with
    | None =>
        (Throw (TypeError ("Cannot read properties of undefined (reading '" ++ name ++ "')")), s)
    | Some r =>
        match nth_error (keyringInstances (this s)) r with
        | None =>
            (Throw (TypeError ("Cannot read properties of undefined (reading '" ++ name ++ "')")), s)
        | Some k =>
            match kr_methods k name with
            | None => (Throw (TypeError (callee ++ " is not a function")), s)
            | Some f =>
                let (c, st') := f args (kr_state k) in
                (c, afterCall s r st' (EvKeyringCall (kr_type k) name args (kr_state k)))
            end
        end
    end.

(** [keyring.type] *)
Definition keyringType (keyring : option nat) : M string :=
  fun s =>
    match keyring with
    | None => (Throw (TypeError "Cannot read properties of undefined (reading 'type')"), s)
    | Some r =>
        match nth_error (keyringInstances (this s)) r with
        | None => (Throw (TypeError "Cannot read properties of undefined (reading 'type')"), s)
        | Some k => (Normal (kr_type k), s)
        end
    end.

(** Modelled from the spec: [callBackgroundMethod] is imported from
    [./action-queue], which is not among the sources.  The design document
    describes it as the outbound delivery of a call result by a named
    remote-procedure invocation; the call is recorded in the log.  The
    callback passed by the relay only writes to the console. *)
Definition callBackgroundMethod (method : string) (args : list CallResult)
    : M unit :=
  fun s => (Normal tt, {| this := this s; log := log s ++ [EvBackgroundCall method args] |}).

(** [updateKeyringData(type, data)].  The [console.error] on a missing
    keyring does not stop execution. *)
Definition updateKeyringData (type : string) (data : JsValue) : M unit :=
  keyring <- thisKeyringInstanceForType type ;;
  callKeyring "keyring.deserialize" keyring "deserialize" [data] ;;;
  ret tt.

(** [getUpdatedKeyringData(type)] *)
Definition getUpdatedKeyringData (type : string) : M JsValue :=
  keyring <- thisKeyringInstanceForType type ;;
  data <- callKeyring "keyring.serialize" keyring "serialize" [] ;;
  ret data.

(** [e.message || e.cause || String(e)] *)
Definition rejectData (e : JsValue) : Completion JsValue :=
  match js_get e "message" with
  | Throw x => Throw x
  | Normal m =>
      if truthy m then Normal m
      else
        match js_get e "cause" with
        | Throw x => Throw x
        | Normal c => if truthy c then Normal c else Normal (JStr (js_String e))
        end
  end.

(** The outcome message [{ promiseId, result, data }] of a request. *)
Definition outcome (p : CallRequest) (result : string) (data : JsValue)
    : CallResult :=
  {| promiseId := req_promiseId p; result := result; data := data |}.

(** The [try] block of [handleMethodCall]; the [console.log] in it reads
    [keyring.type]. *)
Definition tryBlock (p : CallRequest) (keyring : option nat)
    (args : list JsValue) : M unit :=
  _res <- callKeyring "keyring[method]" keyring (req_method p) args ;;
  res <- lift (processKeyringResponse _res (req_method p)) ;;
  newState <- getUpdatedKeyringData (req_type p) ;;
  keyringType keyring ;;;
  callBackgroundMethod "closeBackgroundPromise"
    [ outcome p "resolve" (JObj [("newState", newState); ("response", res)]) ].

(** The [catch (e)] block of [handleMethodCall]; the [console.log] in it
    reads [keyring.type]. *)
Definition catchBlock (p : CallRequest) (keyring : option nat)
    (e : JsValue) : M unit :=
  keyringType keyring ;;;
  d <- lift (rejectData e) ;;
  callBackgroundMethod "closeBackgroundPromise" [ outcome p "reject" d ].

(** [handleMethodCall({ type, method, args: _args, prevState, promiseId })] *)
Definition handleMethodCall (p : CallRequest) : M unit :=
  updateKeyringData (req_type p) (req_prevState p) ;;;
  args <- lift (processArgs (req_args p) (req_method p)) ;;
  keyring <- thisKeyringInstanceForType (req_type p) ;;
  try_catch (tryBlock p keyring args) (catchBlock p keyring).

(** [initializeClientKeyringController()] *)
Definition initializeClientKeyringController (w : Page) : Page :=
  match clientKeyringController w with
  | Some _ => w
  | None =>
      {| clientKeyringController := Some newClientKeyringController;
         document_hasFocus := document_hasFocus w;
         page_log := page_log w |}
  end.

(** [handleHardwareCall(params)].  The promise of [handleMethodCall] is
    not awaited: a rejection of it reaches the page as an unhandled
    rejection.  The variable is set once [initializeClientKeyringController]
    has run ([initialize_sets]), so the last branch is never taken. *)
Definition handleHardwareCall (params : CallRequest) (w : Page) : Page :=
  let w1 := initializeClientKeyringController w in
  if document_hasFocus w1 then
    match clientKeyringController w1 with
    | Some c =>
        let (r, s) := handleMethodCall params {| this := c; log := page_log w1 |} in
        {| clientKeyringController := Some (this s);
           document_hasFocus := document_hasFocus w1;
           page_log :=
             log s ++ match r with
                      | Normal _ => []
                      | Throw e => [EvUnhandledRejection e]
                      end |}
    | None => w1
    end
  else w1.

(** The events a call adds to the log, and the outcome messages among
    them. *)
Definition eventsOf (p : CallRequest) (s : Store) : list Event :=
  skipn (List.length (log s)) (log (snd (handleMethodCall p s))).

Definition outcomesOf (p : CallRequest) (s : Store) : list CallResult :=
  outcomes (eventsOf p s).

(** A computation only ever appends to the log. *)
Definition extends {A} (m : M A) : Prop :=
  forall s, exists new, log (snd (m s)) = log s ++ new.

(** A computation sends no outcome message. *)
Definition silent {A} (m : M A) : Prop :=
  forall s, outcomes (log (snd (m s))) = outcomes (log s).

(** A computation sends exactly one outcome message, for the request [p],
    when it completes normally, and none when it throws. *)
Definition emitsOnce (p : CallRequest) (m : M unit) : Prop :=
  forall s,
    match m s with
    | (Normal _, s') =>
        exists o, outcomes (log s') = outcomes (log s) ++ [o]
                  /\ promiseId o = req_promiseId p
                  /\ (result o = "resolve" \/ result o = "reject")
    | (Throw _, s') => outcomes (log s') = outcomes (log s)
    end.

(** Two controller objects hold the same classes and the same instances up
    to the in-memory state of the instances. *)
Definition sameTable (c c' : ClientKeyringController) : Prop :=
  keyrings c' = keyrings c
  /\ map kr_type (keyringInstances c') = map kr_type (keyringInstances c)
  /\ map kr_methods (keyringInstances c') = map kr_methods (keyringInstances c).

(** A computation never replaces, adds or removes an instance. *)
Definition keepsTable {A} (m : M A) : Prop :=
  forall s, sameTable (this s) (this (snd (m s))).

(** Hoare triple for a controller method: from a store satisfying [P] the
    computation ends in a completion and a store satisfying [Q]. *)
Definition triple {A} (P : Store -> Prop) (m : M A)
    (Q : Completion A -> Store -> Prop) : Prop :=
  forall s, P s -> Q (fst (m s)) (snd (m s)).

(** A computation does not read the log: run on the same controller with
    two logs it completes the same way, leaves the same controller, and
    appends the same events. *)
Definition logParametric {A} (m : M A) : Prop :=
  forall c l1 l2,
    fst (m {| this := c; log := l1 |}) = fst (m {| this := c; log := l2 |})
    /\ this (snd (m {| this := c; log := l1 |}))
       = this (snd (m {| this := c; log := l2 |}))
    /\ exists new,
         log (snd (m {| this := c; log := l1 |})) = l1 ++ new
         /\ log (snd (m {| this := c; log := l2 |})) = l2 ++ new.

(** The controller [c] with the in-memory state of the instance at [r]
    replaced by [st]. *)
Definition withInstanceState (c : ClientKeyringController) (r : nat)
    (st : JsValue) : ClientKeyringController :=
  {| keyrings := keyrings c;
     keyringInstances := updateAt r (setState st) (keyringInstances c) |}.

(* ================================================================== *)
(** ** Properties *)

Unset Implicit Arguments.

(** *** Arrays and logs *)

Lemma findIndex_nth_error {A} (f : A -> bool) (l : list A) (i : nat) :
  findIndex f l = Some i -> exists x, nth_error l i = Some x /\ f x = true.
Proof.
  revert i. induction l as [|a l IH]; intros i H; simpl in H.
  - discriminate.
  - destruct (f a) eqn:Fa.
    + injection H as <-. exists a. split; [reflexivity | exact Fa].
    + destruct (findIndex f l) as [j|]; simpl in H; [|discriminate].
      injection H as <-. destruct (IH j eq_refl) as [x [Hx Fx]].
      exists x. split; assumption.
Qed.

Lemma findIndex_None {A} (f : A -> bool) (l : list A) :
  findIndex f l = None <-> forall x, In x l -> f x = false.
Proof.
  induction l as [|a l IH]; simpl.
  - split; [intros _ x [] | reflexivity].
  - destruct (f a) eqn:Fa.
    + split; [discriminate|]. intros H. rewrite (H a (or_introl eq_refl)) in Fa.
      discriminate.
    + destruct (findIndex f l) as [j|]; simpl.
      * split; [discriminate|]. intros H.
        assert (N : Some j = None); [|discriminate].
        apply IH. intros x Hx. apply H. right. exact Hx.
      * split; [|reflexivity]. intros _ x [<-|Hx]; [exact Fa|].
        apply IH; [reflexivity | exact Hx].
Qed.

Lemma findIndex_updateAt {A} (f : A -> bool) (g : A -> A) (l : list A) (i : nat) :
  (forall x, f (g x) = f x) -> findIndex f (updateAt i g l) = findIndex f l.
Proof.
  intros Hg. revert i. induction l as [|a l IH]; intros [|i]; simpl; try reflexivity.
  - rewrite Hg. reflexivity.
  - rewrite IH. reflexivity.
Qed.

Lemma nth_error_updateAt {A} (g : A -> A) (l : list A) (i : nat) (x : A) :
  nth_error l i = Some x -> nth_error (updateAt i g l) i = Some (g x).
Proof.
  revert i. induction l as [|a l IH]; intros [|i] H; simpl in *; try discriminate.
  - injection H as ->. reflexivity.
  - apply IH. exact H.
Qed.

Lemma map_updateAt {A B} (h : A -> B) (g : A -> A) (l : list A) (i : nat) :
  (forall x, h (g x) = h x) -> map h (updateAt i g l) = map h l.
Proof.
  intros Hg. revert i. induction l as [|a l IH]; intros [|i]; simpl; try reflexivity.
  - rewrite Hg. reflexivity.
  - rewrite IH. reflexivity.
Qed.

Lemma skipn_length_app {A} (l new : list A) : skipn (List.length l) (l ++ new) = new.
Proof. induction l as [|a l IH]; simpl; [reflexivity | exact IH]. Qed.

Lemma outcomes_app (l1 l2 : list Event) :
  outcomes (l1 ++ l2) = outcomes l1 ++ outcomes l2.
Proof.
  induction l1 as [|e l1 IH]; simpl; [reflexivity|].
  destruct e as [t m a st | m a | e]; try exact IH.
  destruct (String.eqb m "closeBackgroundPromise"); [|exact IH].
  rewrite IH. rewrite app_assoc. reflexivity.
Qed.

(** *** The log only grows *)

Lemma extends_ret {A} (a : A) : extends (ret a).
Proof. intros s. exists []. simpl. rewrite app_nil_r. reflexivity. Qed.

Lemma extends_lift {A} (c : Completion A) : extends (lift c).
Proof. intros s. exists []. simpl. rewrite app_nil_r. reflexivity. Qed.

Lemma extends_bind {A B} (m : M A) (k : A -> M B) :
  extends m -> (forall a, extends (k a)) -> extends (bind m k).
Proof.
  intros Hm Hk s. unfold bind. destruct (Hm s) as [n1 E1].
  destruct (m s) as [[a|e] s']; simpl in E1.
  - destruct (Hk a s') as [n2 E2]. exists (n1 ++ n2).
    rewrite E2, E1, app_assoc. reflexivity.
  - exists n1. exact E1.
Qed.

Lemma extends_try_catch {A} (m : M A) (h : JsValue -> M A) :
  extends m -> (forall e, extends (h e)) -> extends (try_catch m h).
Proof.
  intros Hm Hh s. unfold try_catch. destruct (Hm s) as [n1 E1].
  destruct (m s) as [[a|e] s']; simpl in E1.
  - exists n1. exact E1.
  - destruct (Hh e s') as [n2 E2]. exists (n1 ++ n2).
    rewrite E2, E1, app_assoc. reflexivity.
Qed.

Lemma extends_thisKeyringInstanceForType (type : string) :
  extends (thisKeyringInstanceForType type).
Proof. intros s. exists []. simpl. rewrite app_nil_r. reflexivity. Qed.

Lemma extends_callKeyring (callee : string) (keyring : option nat)
    (name : string) (args : list JsValue) :
  extends (callKeyring callee keyring name args).
Proof.
  intros s. unfold callKeyring.
  destruct keyring as [r|]; [|exists []; simpl; rewrite app_nil_r; reflexivity].
  destruct (nth_error (keyringInstances (this s)) r) as [k|];
    [|exists []; simpl; rewrite app_nil_r; reflexivity].
  destruct (kr_methods k name) as [f|];
    [|exists []; simpl; rewrite app_nil_r; reflexivity].
  destruct (f args (kr_state k)) as [c st']. eexists. reflexivity.
Qed.

Lemma extends_keyringType (keyring : option nat) : extends (keyringType keyring).
Proof.
  intros s. unfold keyringType. exists [].
  destruct keyring as [r|]; [|simpl; rewrite app_nil_r; reflexivity].
  destruct (nth_error (keyringInstances (this s)) r);
    simpl; rewrite app_nil_r; reflexivity.
Qed.

Lemma extends_callBackgroundMethod (method : string) (args : list CallResult) :
  extends (callBackgroundMethod method args).
Proof. intros s. eexists. reflexivity. Qed.

Lemma extends_getUpdatedKeyringData (type : string) :
  extends (getUpdatedKeyringData type).
Proof.
  unfold getUpdatedKeyringData.
  apply extends_bind; [apply extends_thisKeyringInstanceForType|]. intros keyring.
  apply extends_bind; [apply extends_callKeyring|]. intros v. apply extends_ret.
Qed.

Lemma extends_updateKeyringData (type : string) (data : JsValue) :
  extends (updateKeyringData type data).
Proof.
  unfold updateKeyringData.
  apply extends_bind; [apply extends_thisKeyringInstanceForType|]. intros keyring.
  apply extends_bind; [apply extends_callKeyring|]. intros v. apply extends_ret.
Qed.

Lemma extends_catchBlock (p : CallRequest) (keyring : option nat) (e : JsValue) :
  extends (catchBlock p keyring e).
Proof.
  unfold catchBlock.
  apply extends_bind; [apply extends_keyringType|]. intros _.
  apply extends_bind; [apply extends_lift|]. intros d.
  apply extends_callBackgroundMethod.
Qed.

Lemma extends_tryBlock (p : CallRequest) (keyring : option nat)
    (args : list JsValue) : extends (tryBlock p keyring args).
Proof.
  unfold tryBlock.
  apply extends_bind; [apply extends_callKeyring|]. intros v.
  apply extends_bind; [apply extends_lift|]. intros res.
  apply extends_bind; [apply extends_getUpdatedKeyringData|]. intros newState.
  apply extends_bind; [apply extends_keyringType|]. intros _.
  apply extends_callBackgroundMethod.
Qed.

Lemma extends_handleMethodCall (p : CallRequest) : extends (handleMethodCall p).
Proof.
  unfold handleMethodCall.
  apply extends_bind; [apply extends_updateKeyringData|]. intros _.
  apply extends_bind; [apply extends_lift|]. intros args.
  apply extends_bind; [apply extends_thisKeyringInstanceForType|]. intros keyring.
  apply extends_try_catch; [apply extends_tryBlock | apply extends_catchBlock].
Qed.

Lemma eventsOf_spec (p : CallRequest) (s : Store) :
  log (snd (handleMethodCall p s)) = log s ++ eventsOf p s.
Proof.
  unfold eventsOf. destruct (extends_handleMethodCall p s) as [new E].
  rewrite E, skipn_length_app. reflexivity.
Qed.

Lemma eventsOf_intro (p : CallRequest) (s : Store) (new : list Event) :
  log (snd (handleMethodCall p s)) = log s ++ new -> eventsOf p s = new.
Proof. intros E. unfold eventsOf. rewrite E. apply skipn_length_app. Qed.

(** *** Outcome messages of a call *)

Lemma silent_ret {A} (a : A) : silent (ret a).
Proof. intros s. reflexivity. Qed.

Lemma silent_lift {A} (c : Completion A) : silent (lift c).
Proof. intros s. reflexivity. Qed.

Lemma silent_thisKeyringInstanceForType (type : string) :
  silent (thisKeyringInstanceForType type).
Proof. intros s. reflexivity. Qed.

Lemma silent_keyringType (keyring : option nat) : silent (keyringType keyring).
Proof.
  intros s. unfold keyringType. destruct keyring as [r|]; [|reflexivity].
  destruct (nth_error (keyringInstances (this s)) r); reflexivity.
Qed.

Lemma silent_callKeyring (callee : string) (keyring : option nat)
    (name : string) (args : list JsValue) :
  silent (callKeyring callee keyring name args).
Proof.
  intros s. unfold callKeyring. destruct keyring as [r|]; [|reflexivity].
  destruct (nth_error (keyringInstances (this s)) r) as [k|]; [|reflexivity].
  destruct (kr_methods k name) as [f|]; [|reflexivity].
  destruct (f args (kr_state k)) as [c st']. simpl.
  rewrite outcomes_app. simpl. apply app_nil_r.
Qed.

Lemma silent_bind {A B} (m : M A) (k : A -> M B) :
  silent m -> (forall a, silent (k a)) -> silent (bind m k).
Proof.
  intros Hm Hk s. unfold bind. pose proof (Hm s) as E1.
  destruct (m s) as [[a|e] s']; simpl in E1.
  - rewrite Hk. exact E1.
  - exact E1.
Qed.

Lemma silent_updateKeyringData (type : string) (data : JsValue) :
  silent (updateKeyringData type data).
Proof.
  unfold updateKeyringData.
  apply silent_bind; [apply silent_thisKeyringInstanceForType|]. intros keyring.
  apply silent_bind; [apply silent_callKeyring|]. intros v. apply silent_ret.
Qed.

Lemma silent_getUpdatedKeyringData (type : string) :
  silent (getUpdatedKeyringData type).
Proof.
  unfold getUpdatedKeyringData.
  apply silent_bind; [apply silent_thisKeyringInstanceForType|]. intros keyring.
  apply silent_bind; [apply silent_callKeyring|]. intros v. apply silent_ret.
Qed.

Lemma emitsOnce_bind {A} (p : CallRequest) (m : M A) (k : A -> M unit) :
  silent m -> (forall a, emitsOnce p (k a)) -> emitsOnce p (bind m k).
Proof.
  intros Hm Hk s. unfold bind. pose proof (Hm s) as E1.
  destruct (m s) as [[a|e] s']; simpl in E1.
  - pose proof (Hk a s') as E2. destruct (k a s') as [[u|e] s''].
    + rewrite <- E1. exact E2.
    + rewrite <- E1. exact E2.
  - exact E1.
Qed.

Lemma emitsOnce_try_catch (p : CallRequest) (m : M unit) (h : JsValue -> M unit) :
  emitsOnce p m -> (forall e, emitsOnce p (h e)) -> emitsOnce p (try_catch m h).
Proof.
  intros Hm Hh s. unfold try_catch. pose proof (Hm s) as E1.
  destruct (m s) as [[u|e] s'].
  - exact E1.
  - pose proof (Hh e s') as E2. destruct (h e s') as [[u|e'] s''].
    + rewrite <- E1. exact E2.
    + rewrite <- E1. exact E2.
Qed.

Lemma emitsOnce_closeBackgroundPromise (p : CallRequest) (o : CallResult) :
  promiseId o = req_promiseId p ->
  result o = "resolve" \/ result o = "reject" ->
  emitsOnce p (callBackgroundMethod "closeBackgroundPromise" [o]).
Proof.
  intros Hp Hr s. simpl. exists o. rewrite outcomes_app. simpl.
  split; [reflexivity | split; assumption].
Qed.

Lemma emitsOnce_tryBlock (p : CallRequest) (keyring : option nat)
    (args : list JsValue) : emitsOnce p (tryBlock p keyring args).
Proof.
  unfold tryBlock.
  apply emitsOnce_bind; [apply silent_callKeyring|]. intros v.
  apply emitsOnce_bind; [apply silent_lift|]. intros res.
  apply emitsOnce_bind; [apply silent_getUpdatedKeyringData|]. intros newState.
  apply emitsOnce_bind; [apply silent_keyringType|]. intros _.
  apply emitsOnce_closeBackgroundPromise; [reflexivity | left; reflexivity].
Qed.

Lemma emitsOnce_catchBlock (p : CallRequest) (keyring : option nat)
    (e : JsValue) : emitsOnce p (catchBlock p keyring e).
Proof.
  unfold catchBlock.
  apply emitsOnce_bind; [apply silent_keyringType|]. intros _.
  apply emitsOnce_bind; [apply silent_lift|]. intros d.
  apply emitsOnce_closeBackgroundPromise; [reflexivity | right; reflexivity].
Qed.

(** A call that completes normally has sent exactly one outcome, carrying
    the [promiseId] of the request; a call that throws has sent none. *)
Lemma emitsOnce_handleMethodCall (p : CallRequest) :
  emitsOnce p (handleMethodCall p).
Proof.
  unfold handleMethodCall.
  apply emitsOnce_bind; [apply silent_updateKeyringData|]. intros _.
  apply emitsOnce_bind; [apply silent_lift|]. intros args.
  apply emitsOnce_bind; [apply silent_thisKeyringInstanceForType|]. intros keyring.
  apply emitsOnce_try_catch; [apply emitsOnce_tryBlock|].
  intros e. apply emitsOnce_catchBlock.
Qed.

Lemma outcomesOf_spec (p : CallRequest) (s : Store) :
  outcomes (log (snd (handleMethodCall p s)))
  = outcomes (log s) ++ outcomesOf p s.
Proof. rewrite eventsOf_spec, outcomes_app. reflexivity. Qed.

Lemma handleMethodCall_outcomes (p : CallRequest) (s : Store) :
  match fst (handleMethodCall p s) with
  | Normal _ =>
      exists o, outcomesOf p s = [o]
                /\ promiseId o = req_promiseId p
                /\ (result o = "resolve" \/ result o = "reject")
  | Throw _ => outcomesOf p s = []
  end.
Proof.
  pose proof (emitsOnce_handleMethodCall p s) as H.
  pose proof (outcomesOf_spec p s) as E.
  destruct (handleMethodCall p s) as [[u|e] s']; simpl in *.
  - destruct H as [o [Ho Hp]]. exists o. split; [|exact Hp].
    rewrite Ho in E. apply app_inv_head in E. symmetry. exact E.
  - rewrite H in E. rewrite <- (app_nil_r (outcomes (log s))) in E at 1.
    apply app_inv_head in E. symmetry. exact E.
Qed.

(** *** The instance table is kept *)

Lemma sameTable_refl (c : ClientKeyringController) : sameTable c c.
Proof. repeat split. Qed.

Lemma sameTable_trans (c1 c2 c3 : ClientKeyringController) :
  sameTable c1 c2 -> sameTable c2 c3 -> sameTable c1 c3.
Proof.
  intros [A1 [B1 C1]] [A2 [B2 C2]].
  repeat split; etransitivity; eassumption.
Qed.

Lemma keepsTable_ret {A} (a : A) : keepsTable (ret a).
Proof. intros s. apply sameTable_refl. Qed.

Lemma keepsTable_lift {A} (c : Completion A) : keepsTable (lift c).
Proof. intros s. apply sameTable_refl. Qed.

Lemma keepsTable_bind {A B} (m : M A) (k : A -> M B) :
  keepsTable m -> (forall a, keepsTable (k a)) -> keepsTable (bind m k).
Proof.
  intros Hm Hk s. unfold bind. pose proof (Hm s) as E1.
  destruct (m s) as [[a|e] s']; simpl in E1.
  - apply (sameTable_trans _ _ _ E1). apply Hk.
  - exact E1.
Qed.

Lemma keepsTable_try_catch {A} (m : M A) (h : JsValue -> M A) :
  keepsTable m -> (forall e, keepsTable (h e)) -> keepsTable (try_catch m h).
Proof.
  intros Hm Hh s. unfold try_catch. pose proof (Hm s) as E1.
  destruct (m s) as [[a|e] s']; simpl in E1.
  - exact E1.
  - apply (sameTable_trans _ _ _ E1). apply Hh.
Qed.

Lemma keepsTable_thisKeyringInstanceForType (type : string) :
  keepsTable (thisKeyringInstanceForType type).
Proof. intros s. apply sameTable_refl. Qed.

Lemma keepsTable_keyringType (keyring : option nat) :
  keepsTable (keyringType keyring).
Proof.
  intros s. unfold keyringType. destruct keyring as [r|]; [|apply sameTable_refl].
  destruct (nth_error (keyringInstances (this s)) r); apply sameTable_refl.
Qed.

Lemma keepsTable_callBackgroundMethod (method : string) (args : list CallResult) :
  keepsTable (callBackgroundMethod method args).
Proof. intros s. apply sameTable_refl. Qed.

Lemma keepsTable_callKeyring (callee : string) (keyring : option nat)
    (name : string) (args : list JsValue) :
  keepsTable (callKeyring callee keyring name args).
Proof.
  intros s. unfold callKeyring. destruct keyring as [r|]; [|apply sameTable_refl].
  destruct (nth_error (keyringInstances (this s)) r) as [k|]; [|apply sameTable_refl].
  destruct (kr_methods k name) as [f|]; [|apply sameTable_refl].
  destruct (f args (kr_state k)) as [c st']. simpl.
  repeat split; simpl; apply map_updateAt; reflexivity.
Qed.

Lemma keepsTable_handleMethodCall (p : CallRequest) : keepsTable (handleMethodCall p).
Proof.
  unfold handleMethodCall, updateKeyringData, tryBlock, catchBlock,
    getUpdatedKeyringData.
  repeat first
    [ apply keepsTable_bind | apply keepsTable_try_catch | intro
    | apply keepsTable_ret | apply keepsTable_lift
    | apply keepsTable_thisKeyringInstanceForType | apply keepsTable_keyringType
    | apply keepsTable_callBackgroundMethod | apply keepsTable_callKeyring ].
Qed.

(** *** Running the pieces of a call *)

Ltac unfold_monad :=
  unfold bind, ret, lift, throw, try_catch, thisKeyringInstanceForType.

Lemma callKeyring_run (callee : string) (s : Store) (r : nat) (k : Keyring)
    (name : string) (args : list JsValue) (f : Method)
    (c : Completion JsValue) (st' : JsValue) :
  nth_error (keyringInstances (this s)) r = Some k ->
  kr_methods k name = Some f ->
  f args (kr_state k) = (c, st') ->
  callKeyring callee (Some r) name args s
  = (c, afterCall s r st' (EvKeyringCall (kr_type k) name args (kr_state k))).
Proof.
  intros Hk Hf Hc. unfold callKeyring. rewrite Hk, Hf, Hc. reflexivity.
Qed.

Lemma callKeyring_not_callable (callee : string) (s : Store) (r : nat)
    (k : Keyring) (name : string) (args : list JsValue) :
  nth_error (keyringInstances (this s)) r = Some k ->
  kr_methods k name = None ->
  callKeyring callee (Some r) name args s
  = (Throw (TypeError (callee ++ " is not a function")), s).
Proof.
  intros Hk Hf. unfold callKeyring. rewrite Hk, Hf. reflexivity.
Qed.

Lemma afterCall_find (s : Store) (r : nat) (st' : JsValue) (ev : Event)
    (type : string) :
  getKeyringInstanceForType type (this (afterCall s r st' ev))
  = getKeyringInstanceForType type (this s).
Proof.
  unfold getKeyringInstanceForType, afterCall. simpl.
  apply findIndex_updateAt. reflexivity.
Qed.

Lemma afterCall_nth (s : Store) (r : nat) (st' : JsValue) (ev : Event)
    (k : Keyring) :
  nth_error (keyringInstances (this s)) r = Some k ->
  nth_error (keyringInstances (this (afterCall s r st' ev))) r
  = Some (setState st' k).
Proof. intros Hk. unfold afterCall. simpl. apply nth_error_updateAt. exact Hk. Qed.

Lemma catchBlock_reject (p : CallRequest) (s : Store) (r : nat) (k : Keyring)
    (e d : JsValue) :
  nth_error (keyringInstances (this s)) r = Some k ->
  rejectData e = Normal d ->
  catchBlock p (Some r) e s
  = (Normal tt,
     {| this := this s;
        log := log s ++ [EvBackgroundCall "closeBackgroundPromise" [outcome p "reject" d]] |}).
Proof.
  intros Hk Hd. unfold catchBlock, keyringType, callBackgroundMethod.
  unfold_monad. rewrite Hk, Hd. reflexivity.
Qed.

Lemma catchBlock_throws (p : CallRequest) (s : Store) (keyring : option nat)
    (e x : JsValue) :
  rejectData e = Throw x ->
  exists y, catchBlock p keyring e s = (Throw y, s).
Proof.
  intros Hd. unfold catchBlock, keyringType.
  unfold_monad. rewrite Hd.
  destruct keyring as [r|]; [|eexists; reflexivity].
  destruct (nth_error (keyringInstances (this s)) r); eexists; reflexivity.
Qed.

Section Call.

Variables (p : CallRequest) (s : Store) (r : nat) (k : Keyring).

(** The request names a keyring type the controller has an instance of. *)
Hypothesis Hfind : getKeyringInstanceForType (req_type p) (this s) = Some r.
Hypothesis Hk : nth_error (keyringInstances (this s)) r = Some k.

Lemma found_type : kr_type k = req_type p.
Proof.
  unfold getKeyringInstanceForType in Hfind.
  destruct (findIndex_nth_error _ _ _ Hfind) as [x [Hx Ex]].
  rewrite Hk in Hx. injection Hx as <-. apply String.eqb_eq. exact Ex.
Qed.

Variables (d : Method) (c0 : Completion JsValue) (st1 : JsValue).

(** The instance has a [deserialize] method; called with [prevState] it
    completes with [c0] and leaves the instance in state [st1]. *)
Hypothesis Hd : kr_methods k "deserialize" = Some d.
Hypothesis Hdes : d [req_prevState p] (kr_state k) = (c0, st1).

(** The store after the state overwrite. *)
Let s1 : Store :=
  afterCall s r st1
    (EvKeyringCall (req_type p) "deserialize" [req_prevState p] (kr_state k)).

Lemma updateKeyringData_run :
  updateKeyringData (req_type p) (req_prevState p) s
  = (match c0 with Normal _ => Normal tt | Throw e => Throw e end, s1).
Proof.
  unfold updateKeyringData. unfold_monad. rewrite Hfind.
  rewrite (@callKeyring_run _ s r k _ _ d c0 st1 Hk Hd Hdes). rewrite found_type.
  destruct c0; reflexivity.
Qed.

Lemma handleMethodCall_overwrite_fails (e : JsValue) :
  c0 = Throw e -> handleMethodCall p s = (Throw e, s1).
Proof.
  intros E. unfold handleMethodCall. unfold bind at 1.
  rewrite updateKeyringData_run, E. reflexivity.
Qed.

Lemma handleMethodCall_args_fail (v0 e : JsValue) :
  c0 = Normal v0 ->
  processArgs (req_args p) (req_method p) = Throw e ->
  handleMethodCall p s = (Throw e, s1).
Proof.
  intros E Ha. unfold handleMethodCall. unfold bind at 1.
  rewrite updateKeyringData_run, E. unfold_monad. rewrite Ha. reflexivity.
Qed.

Lemma handleMethodCall_enters_try (v0 : JsValue) (args' : list JsValue) :
  c0 = Normal v0 ->
  processArgs (req_args p) (req_method p) = Normal args' ->
  handleMethodCall p s
  = try_catch (tryBlock p (Some r) args') (catchBlock p (Some r)) s1.
Proof.
  intros E Ha. unfold handleMethodCall. unfold bind at 1.
  rewrite updateKeyringData_run, E. unfold bind at 1. unfold lift at 1.
  rewrite Ha. unfold bind at 1. unfold thisKeyringInstanceForType.
  unfold s1. rewrite afterCall_find, Hfind. reflexivity.
Qed.

Lemma s1_nth : nth_error (keyringInstances (this s1)) r = Some (setState st1 k).
Proof. apply afterCall_nth. exact Hk. Qed.

Variables (v0 : JsValue) (args' : list JsValue).

(** The overwrite completes normally and so does the argument
    transformation: the call enters the [try] block. *)
Hypothesis Hc0 : c0 = Normal v0.
Hypothesis Hargs : processArgs (req_args p) (req_method p) = Normal args'.

(** The store after the invocation left the instance in state [st2]. *)
Let s2 (st2 : JsValue) : Store :=
  afterCall s1 r st2
    (EvKeyringCall (req_type p) (req_method p) args' st1).

Lemma s2_nth (st2 : JsValue) :
  nth_error (keyringInstances (this (s2 st2))) r
  = Some (setState st2 (setState st1 k)).
Proof. apply afterCall_nth. apply s1_nth. Qed.

Lemma invocation_run (f : Method) (c : Completion JsValue) (st2 : JsValue) :
  kr_methods k (req_method p) = Some f ->
  f args' st1 = (c, st2) ->
  callKeyring "keyring[method]" (Some r) (req_method p) args' s1 = (c, s2 st2).
Proof.
  intros Hf Hc.
  rewrite (@callKeyring_run _ s1 r (setState st1 k) _ _ f c st2 s1_nth Hf Hc).
  simpl. rewrite found_type. reflexivity.
Qed.

Lemma tryBlock_invocation_throws (f : Method) (e st2 : JsValue) :
  kr_methods k (req_method p) = Some f ->
  f args' st1 = (Throw e, st2) ->
  tryBlock p (Some r) args' s1 = (Throw e, s2 st2).
Proof.
  intros Hf Hc. unfold tryBlock. unfold bind at 1.
  rewrite (invocation_run _ _ _ Hf Hc). reflexivity.
Qed.

Lemma tryBlock_not_callable :
  kr_methods k (req_method p) = None ->
  tryBlock p (Some r) args' s1
  = (Throw (TypeError "keyring[method] is not a function"), s1).
Proof.
  intros Hf. unfold tryBlock. unfold bind at 1.
  rewrite (@callKeyring_not_callable _ s1 r (setState st1 k) _ _ s1_nth Hf).
  reflexivity.
Qed.

Lemma getUpdatedKeyringData_run (st2 : JsValue) (g : Method)
    (c : Completion JsValue) (st3 : JsValue) :
  kr_methods k "serialize" = Some g ->
  g [] st2 = (c, st3) ->
  getUpdatedKeyringData (req_type p) (s2 st2)
  = (c, afterCall (s2 st2) r st3 (EvKeyringCall (req_type p) "serialize" [] st2)).
Proof.
  intros Hg Hc. unfold getUpdatedKeyringData. unfold_monad.
  unfold s2 at 1, s1 at 1. rewrite !afterCall_find, Hfind.
  rewrite (@callKeyring_run _ (s2 st2) r (setState st2 (setState st1 k)) _ _
             g c st3 (s2_nth st2) Hg Hc).
  simpl. rewrite found_type. destruct c; reflexivity.
Qed.

Lemma tryBlock_resolves (f g : Method) (v res newState st2 st3 : JsValue) :
  kr_methods k (req_method p) = Some f ->
  f args' st1 = (Normal v, st2) ->
  processKeyringResponse v (req_method p) = Normal res ->
  kr_methods k "serialize" = Some g ->
  g [] st2 = (Normal newState, st3) ->
  tryBlock p (Some r) args' s1
  = (Normal tt,
     {| this := this (afterCall (s2 st2) r st3
                        (EvKeyringCall (req_type p) "serialize" [] st2));
        log := log s ++
               [ EvKeyringCall (req_type p) "deserialize" [req_prevState p] (kr_state k);
                 EvKeyringCall (req_type p) (req_method p) args' st1;
                 EvKeyringCall (req_type p) "serialize" [] st2;
                 EvBackgroundCall "closeBackgroundPromise"
                   [ outcome p "resolve"
                       (JObj [("newState", newState); ("response", res)]) ] ] |}).
Proof.
  intros Hf Hc Hr Hg Hs. unfold tryBlock. unfold bind at 1.
  rewrite (invocation_run _ _ _ Hf Hc). unfold bind at 1. unfold lift at 1.
  rewrite Hr. unfold bind at 1.
  rewrite (@getUpdatedKeyringData_run st2 g (Normal newState) st3 Hg Hs).
  unfold bind at 1. unfold keyringType.
  rewrite (afterCall_nth _ _ _ _ _ (s2_nth st2)).
  unfold callBackgroundMethod. simpl. rewrite <- !app_assoc. reflexivity.
Qed.

Lemma try_catch_after_invocation (f : Method) (c : Completion JsValue)
    (st2 : JsValue) :
  kr_methods k (req_method p) = Some f ->
  f args' st1 = (c, st2) ->
  exists more,
    log (snd (try_catch (tryBlock p (Some r) args') (catchBlock p (Some r)) s1))
    = log (s2 st2) ++ more.
Proof.
  intros Hf Hc.
  set (K := fun _res : JsValue =>
              res <- lift (processKeyringResponse _res (req_method p)) ;;
              newState <- getUpdatedKeyringData (req_type p) ;;
              keyringType (Some r) ;;;
              callBackgroundMethod "closeBackgroundPromise"
                [ outcome p "resolve"
                    (JObj [("newState", newState); ("response", res)]) ]).
  assert (HK : forall v, extends (K v)).
  { intros v. unfold K.
    apply extends_bind; [apply extends_lift|]. intros res.
    apply extends_bind; [apply extends_getUpdatedKeyringData|]. intros newState.
    apply extends_bind; [apply extends_keyringType|]. intros _.
    apply extends_callBackgroundMethod. }
  assert (E : try_catch (tryBlock p (Some r) args') (catchBlock p (Some r)) s1
              = match c with
                | Normal v => try_catch (K v) (catchBlock p (Some r)) (s2 st2)
                | Throw e => catchBlock p (Some r) e (s2 st2)
                end).
  { unfold tryBlock. fold K. unfold try_catch at 1. unfold bind at 1.
    rewrite (invocation_run _ _ _ Hf Hc). destruct c; reflexivity. }
  rewrite E. destruct c as [v|e].
  - apply extends_try_catch; [apply HK | apply extends_catchBlock].
  - apply extends_catchBlock.
Qed.

End Call.

(** *** A call on a supported keyring *)

Lemma rejectData_TypeError (a : ascii) (rest : string) :
  rejectData (TypeError (String a rest)) = Normal (JStr (String a rest)).
Proof. reflexivity. Qed.

Section SupportedCall.

Variables (p : CallRequest) (s : Store) (r : nat) (k : Keyring) (d : Method).

(** The request names a keyring type the controller holds an instance [k]
    of, and the instance has a [deserialize] method [d]. *)
Hypothesis Hfind : getKeyringInstanceForType (req_type p) (this s) = Some r.
Hypothesis Hk : nth_error (keyringInstances (this s)) r = Some k.
Hypothesis Hd : kr_methods k "deserialize" = Some d.

(** C3.  For a supported keyring type and method, the first thing a call
    does is [deserialize(prevState)] on the target instance, in whatever
    state the instance was.  Only if that completes normally, and the
    argument transformation succeeds, is the requested method invoked: with
    the transformed arguments, on the instance in the state the overwrite
    left it in.  If the overwrite or the transformation throws, nothing else
    happens. *)
Theorem state_overwrite_precedes_invocation
    (f : Method) (c0 : Completion JsValue) (st1 : JsValue) :
  kr_methods k (req_method p) = Some f ->
  d [req_prevState p] (kr_state k) = (c0, st1) ->
  exists rest,
    eventsOf p s
    = EvKeyringCall (req_type p) "deserialize" [req_prevState p] (kr_state k)
      :: rest
    /\ match c0, processArgs (req_args p) (req_method p) with
       | Normal _, Normal args' =>
           exists more,
             rest = EvKeyringCall (req_type p) (req_method p) args' st1 :: more
       | _, _ => rest = []
       end.
Proof.
  intros Hf Hdes. destruct c0 as [v0|e].
  - destruct (processArgs (req_args p) (req_method p)) as [args'|e] eqn:Ha.
    + destruct (f args' st1) as [c st2] eqn:Hc.
      destruct (try_catch_after_invocation p s r k Hfind Hk st1 args' f c st2 Hf Hc)
        as [more E].
      rewrite <- (handleMethodCall_enters_try p s r k Hfind Hk d _ st1 Hd Hdes
                    v0 args' eq_refl Ha) in E.
      eexists. split; [|exists more; reflexivity].
      apply eventsOf_intro. rewrite E. simpl. rewrite <- !app_assoc. reflexivity.
    + exists []. split; [|reflexivity]. apply eventsOf_intro.
      rewrite (handleMethodCall_args_fail p s r k Hfind Hk d _ st1 Hd Hdes
                 v0 e eq_refl Ha).
      reflexivity.
  - exists []. split; [|reflexivity]. apply eventsOf_intro.
    rewrite (handleMethodCall_overwrite_fails p s r k Hfind Hk d _ st1 Hd Hdes
               e eq_refl).
    reflexivity.
Qed.

Variables (v0 st1 : JsValue).

(** The overwrite with [prevState] completes normally and leaves the
    instance in state [st1]. *)
Hypothesis Hdes : d [req_prevState p] (kr_state k) = (Normal v0, st1).

Lemma resolved_call (args' : list JsValue) (f g : Method)
    (v res newState st2 st3 : JsValue) :
  processArgs (req_args p) (req_method p) = Normal args' ->
  kr_methods k (req_method p) = Some f ->
  f args' st1 = (Normal v, st2) ->
  processKeyringResponse v (req_method p) = Normal res ->
  kr_methods k "serialize" = Some g ->
  g [] st2 = (Normal newState, st3) ->
  fst (handleMethodCall p s) = Normal tt
  /\ eventsOf p s
     = [ EvKeyringCall (req_type p) "deserialize" [req_prevState p] (kr_state k);
         EvKeyringCall (req_type p) (req_method p) args' st1;
         EvKeyringCall (req_type p) "serialize" [] st2;
         EvBackgroundCall "closeBackgroundPromise"
           [ outcome p "resolve"
               (JObj [("newState", newState); ("response", res)]) ] ].
Proof.
  intros Ha Hf Hc Hr Hg Hs.
  pose proof (handleMethodCall_enters_try p s r k Hfind Hk d _ st1 Hd Hdes
                v0 args' eq_refl Ha) as E.
  unfold try_catch in E.
  rewrite (tryBlock_resolves p s r k Hfind Hk st1 args' f g v res newState
             st2 st3 Hf Hc Hr Hg Hs) in E.
  split.
  - rewrite E. reflexivity.
  - apply eventsOf_intro. rewrite E. reflexivity.
Qed.

(** C4.  In a [signTransaction] call the second argument goes through
    [buildUnserializedTxFromHex] before anything is invoked: if it does not
    decode, the method is not invoked at all; if it decodes to [tx], the
    method is invoked with the first argument as received, [tx], and the
    remaining arguments.  When the method then returns a signed transaction
    object (and the new state is read back), the call ends with a resolve
    whose data is [{ newState, response }], [response] being the hex string
    of the serialized signed transaction. *)
Theorem signTransaction_hex_in_hex_out (f : Method) :
  req_method p = "signTransaction" ->
  kr_methods k "signTransaction" = Some f ->
  match buildUnserializedTxFromHex (nth 1 (req_args p) JUndefined) with
  | Throw _ =>
      eventsOf p s
      = [ EvKeyringCall (req_type p) "deserialize" [req_prevState p] (kr_state k) ]
  | Normal tx =>
      exists more,
        eventsOf p s
        = EvKeyringCall (req_type p) "deserialize" [req_prevState p] (kr_state k)
          :: EvKeyringCall (req_type p) "signTransaction"
               (nth 0 (req_args p) JUndefined :: tx :: skipn 2 (req_args p)) st1
          :: more
        /\ forall (signed : list byte) (g : Method) (newState st2 st3 : JsValue),
             f (nth 0 (req_args p) JUndefined :: tx :: skipn 2 (req_args p)) st1
             = (Normal (JTx signed), st2) ->
             kr_methods k "serialize" = Some g ->
             g [] st2 = (Normal newState, st3) ->
             more
             = [ EvKeyringCall (req_type p) "serialize" [] st2;
                 EvBackgroundCall "closeBackgroundPromise"
                   [ {| promiseId := req_promiseId p;
                        result := "resolve";
                        data := JObj [("newState", newState);
                                      ("response", JStr (bufferToHex signed))] |} ] ]
  end.
Proof.
  intros Hm Hf.
  destruct (buildUnserializedTxFromHex (nth 1 (req_args p) JUndefined))
    as [tx|e] eqn:Hb.
  - assert (Ha : processArgs (req_args p) (req_method p)
                 = Normal (nth 0 (req_args p) JUndefined :: tx :: skipn 2 (req_args p))).
    { unfold processArgs. rewrite Hm. simpl. rewrite Hb. reflexivity. }
    rewrite <- Hm in Hf.
    destruct (f (nth 0 (req_args p) JUndefined :: tx :: skipn 2 (req_args p)) st1)
      as [c st2] eqn:Hc.
    destruct (try_catch_after_invocation p s r k Hfind Hk st1 _ f c st2 Hf Hc)
      as [more E].
    rewrite <- (handleMethodCall_enters_try p s r k Hfind Hk d _ st1 Hd Hdes
                  v0 _ eq_refl Ha) in E.
    assert (Ev : eventsOf p s
                 = EvKeyringCall (req_type p) "deserialize" [req_prevState p] (kr_state k)
                   :: EvKeyringCall (req_type p) (req_method p)
                        (nth 0 (req_args p) JUndefined :: tx :: skipn 2 (req_args p)) st1
                   :: more).
    { apply eventsOf_intro. rewrite E. simpl. rewrite <- !app_assoc. reflexivity. }
    exists more. split.
    + rewrite Ev, Hm. reflexivity.
    + intros signed g newState st2' st3 Hc' Hg Hs.
      injection Hc' as -> <-.
      assert (Hr : processKeyringResponse (JTx signed) (req_method p)
                   = Normal (JStr (bufferToHex signed))).
      { unfold processKeyringResponse. rewrite Hm. reflexivity. }
      destruct (resolved_call _ f g _ _ newState st2 st3 Ha Hf Hc Hr Hg Hs)
        as [_ Ev'].
      rewrite Ev in Ev'. injection Ev' as ->. reflexivity.
  - assert (Ha : processArgs (req_args p) (req_method p) = Throw e).
    { unfold processArgs. rewrite Hm. simpl. rewrite Hb. reflexivity. }
    apply eventsOf_intro.
    rewrite (handleMethodCall_args_fail p s r k Hfind Hk d _ st1 Hd Hdes
               v0 e eq_refl Ha).
    reflexivity.
Qed.

Lemma pass_through_call (f g : Method) (v newState st2 st3 : JsValue) :
  req_method p <> "signTransaction" ->
  kr_methods k (req_method p) = Some f ->
  f (req_args p) st1 = (Normal v, st2) ->
  kr_methods k "serialize" = Some g ->
  g [] st2 = (Normal newState, st3) ->
  eventsOf p s
  = [ EvKeyringCall (req_type p) "deserialize" [req_prevState p] (kr_state k);
      EvKeyringCall (req_type p) (req_method p) (req_args p) st1;
      EvKeyringCall (req_type p) "serialize" [] st2;
      EvBackgroundCall "closeBackgroundPromise"
        [ outcome p "resolve"
            (JObj [("newState", newState); ("response", v)]) ] ].
Proof.
  intros Hm Hf Hc Hg Hs. apply String.eqb_neq in Hm.
  apply (resolved_call (req_args p) f g v v newState st2 st3).
  - unfold processArgs. rewrite Hm. reflexivity.
  - exact Hf.
  - exact Hc.
  - unfold processKeyringResponse. rewrite Hm. reflexivity.
  - exact Hg.
  - exact Hs.
Qed.

Variable args' : list JsValue.

(** The arguments are transformed into [args']. *)
Hypothesis Hargs : processArgs (req_args p) (req_method p) = Normal args'.

(** C5.  When the invocation of the keyring method throws (the method
    rejects, or the instance has no callable property of that name), no
    outcome of the call is a resolve. *)
Theorem throwing_invocation_never_resolves :
  (kr_methods k (req_method p) = None
   \/ exists f e st2,
        kr_methods k (req_method p) = Some f /\ f args' st1 = (Throw e, st2)) ->
  Forall (fun o => result o <> "resolve") (outcomesOf p s).
Proof.
  intros H. apply Forall_forall. intros o Ho. unfold outcomesOf in Ho.
  pose proof (handleMethodCall_enters_try p s r k Hfind Hk d _ st1 Hd Hdes
                v0 args' eq_refl Hargs) as E.
  destruct H as [Hn | [f [e [st2 [Hf Hc]]]]].
  - unfold try_catch in E.
    rewrite (tryBlock_not_callable p s r k Hk st1 args' Hn) in E.
    erewrite catchBlock_reject in E;
      [| apply afterCall_nth; exact Hk | apply rejectData_TypeError].
    rewrite (eventsOf_intro p s
               [EvKeyringCall (req_type p) "deserialize"
                  [req_prevState p] (kr_state k);
                EvBackgroundCall "closeBackgroundPromise"
                  [outcome p "reject"
                     (JStr "keyring[method] is not a function")]])
      in Ho.
    + simpl in Ho. destruct Ho as [<-|[]]. discriminate.
    + rewrite E. simpl. rewrite <- app_assoc. reflexivity.
  - unfold try_catch in E.
    rewrite (tryBlock_invocation_throws p s r k Hfind Hk st1 args' f e st2 Hf Hc) in E.
    destruct (rejectData e) as [dta|x] eqn:Hr.
    + erewrite catchBlock_reject in E;
        [| apply afterCall_nth; apply afterCall_nth; exact Hk | exact Hr].
      rewrite (eventsOf_intro p s
                 [EvKeyringCall (req_type p) "deserialize"
                    [req_prevState p] (kr_state k);
                  EvKeyringCall (req_type p) (req_method p) args' st1;
                  EvBackgroundCall "closeBackgroundPromise"
                    [outcome p "reject" dta]])
        in Ho.
      * simpl in Ho. destruct Ho as [<-|[]]. discriminate.
      * rewrite E. simpl. rewrite <- !app_assoc. reflexivity.
    + destruct (catchBlock_throws p
                  (afterCall
                     (afterCall s r st1
                        (EvKeyringCall (req_type p) "deserialize"
                           [req_prevState p] (kr_state k)))
                     r st2 (EvKeyringCall (req_type p) (req_method p) args' st1))
                  (Some r) e x Hr) as [y Ey].
      rewrite Ey in E.
      rewrite (eventsOf_intro p s
                 [EvKeyringCall (req_type p) "deserialize"
                    [req_prevState p] (kr_state k);
                  EvKeyringCall (req_type p) (req_method p) args' st1])
        in Ho.
      * destruct Ho.
      * rewrite E. simpl. rewrite <- !app_assoc. reflexivity.
Qed.


End SupportedCall.

(** C9.  For a method other than [signTransaction] both transformations
    are the identity, and so a successful call on a supported keyring
    invokes the method with the arguments of the request as they are and
    resolves with the value the method returned. *)
Theorem other_methods_pass_through (method : string) :
  method <> "signTransaction" ->
  (forall args, processArgs args method = Normal args)
  /\ (forall res, processKeyringResponse res method = Normal res)
  /\ (forall (p : CallRequest) (s : Store) (r : nat) (k : Keyring)
             (d f g : Method) (v0 st1 v newState st2 st3 : JsValue),
        req_method p = method ->
        getKeyringInstanceForType (req_type p) (this s) = Some r ->
        nth_error (keyringInstances (this s)) r = Some k ->
        kr_methods k "deserialize" = Some d ->
        d [req_prevState p] (kr_state k) = (Normal v0, st1) ->
        kr_methods k method = Some f ->
        f (req_args p) st1 = (Normal v, st2) ->
        kr_methods k "serialize" = Some g ->
        g [] st2 = (Normal newState, st3) ->
        eventsOf p s
        = [ EvKeyringCall (req_type p) "deserialize" [req_prevState p] (kr_state k);
            EvKeyringCall (req_type p) method (req_args p) st1;
            EvKeyringCall (req_type p) "serialize" [] st2;
            EvBackgroundCall "closeBackgroundPromise"
              [ {| promiseId := req_promiseId p;
                   result := "resolve";
                   data := JObj [("newState", newState); ("response", v)] |} ] ]).
Proof.
  intros Hm. pose proof Hm as Hb. apply String.eqb_neq in Hb.
  split; [|split].
  - intros args. unfold processArgs. rewrite Hb. reflexivity.
  - intros res. unfold processKeyringResponse. rewrite Hb. reflexivity.
  - intros p s r k d f g v0 st1 v newState st2 st3 E Hfind Hk Hd Hdes Hf Hc Hg Hs.
    subst method.
    apply (pass_through_call p s r k d Hfind Hk Hd v0 st1 Hdes
             f g v newState st2 st3 Hm Hf Hc Hg Hs).
Qed.

(** *** Lookups and unsupported types *)

Lemma find_all_false {A} (f : A -> bool) (l : list A) :
  (forall x, In x l -> f x = false) -> find f l = None.
Proof.
  induction l as [|a l IH]; intros H; simpl; [reflexivity|].
  rewrite (H a (or_introl eq_refl)). apply IH. intros x Hx. apply H. right. exact Hx.
Qed.

(** C1.  A request naming a type the controller has no instance of: the
    instance lookup returns [undefined], [updateKeyringData] throws before
    the [try] block is entered, and the call ends without any outcome
    message; the store is untouched and no [closeBackgroundPromise] call
    was made. *)
Theorem unsupported_type_sends_no_outcome (p : CallRequest) (s : Store) :
  getKeyringInstanceForType (req_type p) (this s) = None ->
  handleMethodCall p s
  = (Throw (TypeError "Cannot read properties of undefined (reading 'deserialize')"), s)
  /\ outcomesOf p s = [].
Proof.
  intros H.
  assert (E : handleMethodCall p s
              = (Throw (TypeError "Cannot read properties of undefined (reading 'deserialize')"), s)).
  { unfold handleMethodCall, updateKeyringData. unfold_monad.
    rewrite H. reflexivity. }
  split; [exact E|].
  unfold outcomesOf. rewrite (eventsOf_intro p s []); [reflexivity|].
  rewrite E. simpl. rewrite app_nil_r. reflexivity.
Qed.

(** C10.  For a type that no class and no instance of the controller
    carries, both lookups return [undefined]; they are plain searches and
    cannot throw.  The failure comes when the result is used:
    [updateKeyringData] throws a [TypeError] on reading [deserialize] of
    [undefined], leaving the controller as it was. *)
Theorem unsupported_type_lookup_undefined
    (c : ClientKeyringController) (type : string) (data : JsValue)
    (l : list Event) :
  ~ In type (map cls_type (keyrings c)) ->
  ~ In type (map kr_type (keyringInstances c)) ->
  getKeyringClassForType type c = None
  /\ getKeyringInstanceForType type c = None
  /\ updateKeyringData type data {| this := c; log := l |}
     = (Throw (TypeError "Cannot read properties of undefined (reading 'deserialize')"),
        {| this := c; log := l |}).
Proof.
  intros Hc Hi.
  assert (E : getKeyringInstanceForType type c = None).
  { unfold getKeyringInstanceForType. apply findIndex_None. intros x Hx.
    apply String.eqb_neq. intros Et. apply Hi. rewrite <- Et.
    apply in_map. exact Hx. }
  split; [|split; [exact E|]].
  - unfold getKeyringClassForType. apply find_all_false. intros x Hx.
    apply String.eqb_neq. intros Et. apply Hc. rewrite <- Et.
    apply in_map. exact Hx.
  - unfold updateKeyringData. unfold_monad. simpl. rewrite E. reflexivity.
Qed.

(** *** The singleton *)

Lemma initialize_sets (w : Page) :
  exists c, clientKeyringController (initializeClientKeyringController w) = Some c
            /\ document_hasFocus (initializeClientKeyringController w) = document_hasFocus w
            /\ page_log (initializeClientKeyringController w) = page_log w
            /\ (forall c0, clientKeyringController w = Some c0 -> c = c0).
Proof.
  unfold initializeClientKeyringController.
  destruct (clientKeyringController w) as [c|] eqn:E.
  - exists c. rewrite E. repeat split. intros c0 H. injection H as <-. reflexivity.
  - eexists. simpl. repeat split. intros c0 H. discriminate.
Qed.

Lemma count_type_NoDup (t : string) (l : list string) :
  NoDup l -> In t l ->
  List.length (filter (fun x => String.eqb x t) l) = 1.
Proof.
  intros N. induction N as [|x l Hx N IH]; intros H; simpl; [destruct H|].
  destruct (String.eqb x t) eqn:E.
  - apply String.eqb_eq in E. subst x. simpl. f_equal.
    assert (F : filter (fun x => String.eqb x t) l = []).
    { clear -Hx. induction l as [|y l IHl]; simpl; [reflexivity|].
      destruct (String.eqb y t) eqn:Ey.
      - apply String.eqb_eq in Ey. subst y. exfalso. apply Hx. left. reflexivity.
      - apply IHl. intros H. apply Hx. right. exact H. }
    rewrite F. reflexivity.
  - apply IH. destruct H as [->|H]; [|exact H].
    rewrite String.eqb_refl in E. discriminate.
Qed.

Lemma filter_type_map (t : string) (l : list Keyring) :
  List.length (filter (fun kr => String.eqb (kr_type kr) t) l)
  = List.length (filter (fun x => String.eqb x t) (map kr_type l)).
Proof.
  induction l as [|a l IH]; simpl; [reflexivity|].
  destruct (String.eqb (kr_type a) t); simpl; rewrite IH; reflexivity.
Qed.

Lemma handleHardwareCall_focused (params : CallRequest) (w : Page) :
  document_hasFocus w = true ->
  exists c,
    clientKeyringController (initializeClientKeyringController w) = Some c
    /\ clientKeyringController (handleHardwareCall params w)
       = Some (this (snd (handleMethodCall params {| this := c; log := page_log w |})))
    /\ page_log (handleHardwareCall params w)
       = log (snd (handleMethodCall params {| this := c; log := page_log w |}))
         ++ match fst (handleMethodCall params {| this := c; log := page_log w |}) with
            | Normal _ => []
            | Throw e => [EvUnhandledRejection e]
            end.
Proof.
  intros F. destruct (initialize_sets w) as [c [Ec [Ef [El _]]]].
  exists c. split; [exact Ec|].
  unfold handleHardwareCall. rewrite Ef, F, Ec, El.
  destruct (handleMethodCall params {| this := c; log := page_log w |}) as [x s'].
  split; reflexivity.
Qed.

Lemma handleHardwareCall_unfocused (params : CallRequest) (w : Page) :
  document_hasFocus w = false ->
  handleHardwareCall params w = initializeClientKeyringController w.
Proof.
  intros F. destruct (initialize_sets w) as [c [_ [Ef _]]].
  unfold handleHardwareCall. rewrite Ef, F. reflexivity.
Qed.

(** C2.  A request naming a type the controller has no instance of, handed
    to [handleHardwareCall] on a focused page: the [TypeError] thrown by
    [updateKeyringData] is not turned into a reject outcome.  It leaves
    [handleMethodCall] as the rejection of a promise nobody awaits, and
    that unhandled rejection is all the call adds to the log. *)
Theorem unsupported_type_rejection_escapes (params : CallRequest) (w : Page)
    (c : ClientKeyringController) :
  document_hasFocus w = true ->
  clientKeyringController (initializeClientKeyringController w) = Some c ->
  getKeyringInstanceForType (req_type params) c = None ->
  page_log (handleHardwareCall params w)
  = page_log w
    ++ [ EvUnhandledRejection
           (TypeError "Cannot read properties of undefined (reading 'deserialize')") ].
Proof.
  intros F Ec H.
  destruct (handleHardwareCall_focused params w F) as [c' [Ec' [_ El]]].
  rewrite Ec in Ec'. injection Ec' as <-.
  assert (E : handleMethodCall params {| this := c; log := page_log w |}
              = (Throw (TypeError "Cannot read properties of undefined (reading 'deserialize')"),
                 {| this := c; log := page_log w |})).
  { unfold handleMethodCall, updateKeyringData. unfold_monad. simpl.
    rewrite H. reflexivity. }
  rewrite El, E. reflexivity.
Qed.

(** C8.  Initialization happens once: a second call changes nothing, a call
    on a page that already has the controller returns the page as it is,
    and the first call stores the constructed controller, whose instance
    table holds the instance made from each entry of [HARDWARE_KEYRINGS],
    in order.  When the entries have distinct types and every constructor
    gives its instance the type of its class, each supported type has
    exactly one instance.  No call ever unsets the controller, and a
    hardware call keeps the classes and instances it finds (only the
    in-memory state of an instance changes). *)
Theorem initialize_once :
  (forall w,
      initializeClientKeyringController (initializeClientKeyringController w)
      = initializeClientKeyringController w)
  /\ (forall w c,
        clientKeyringController w = Some c ->
        initializeClientKeyringController w = w)
  /\ (forall w,
        clientKeyringController w = None ->
        clientKeyringController (initializeClientKeyringController w)
        = Some newClientKeyringController)
  /\ keyringInstances newClientKeyringController = map cls_new HARDWARE_KEYRINGS
  /\ (NoDup (map cls_type HARDWARE_KEYRINGS) ->
      (forall K, In K HARDWARE_KEYRINGS -> kr_type (cls_new K) = cls_type K) ->
      forall t, In t (map cls_type HARDWARE_KEYRINGS) ->
        List.length (filter (fun kr => String.eqb (kr_type kr) t)
                       (keyringInstances newClientKeyringController)) = 1)
  /\ (forall params w,
        exists c, clientKeyringController (handleHardwareCall params w) = Some c
                  /\ forall c0, clientKeyringController w = Some c0 -> sameTable c0 c).
Proof.
  split; [|split; [|split; [|split; [|split]]]].
  - intros w. unfold initializeClientKeyringController.
    destruct (clientKeyringController w) as [c|] eqn:E.
    + rewrite E. reflexivity.
    + reflexivity.
  - intros w c E. unfold initializeClientKeyringController. rewrite E. reflexivity.
  - intros w E. unfold initializeClientKeyringController. rewrite E. reflexivity.
  - reflexivity.
  - intros N T t Ht. simpl. rewrite filter_type_map, map_map.
    rewrite (map_ext_in _ cls_type _ T). apply count_type_NoDup; assumption.
  - intros params w. destruct (document_hasFocus w) eqn:F.
    + destruct (handleHardwareCall_focused params w F) as [c [Ec [E _]]].
      eexists. split; [exact E|]. intros c0 H0.
      destruct (initialize_sets w) as [c' [Ec' [_ [_ Hsame]]]].
      rewrite Ec in Ec'. injection Ec' as <-. rewrite <- (Hsame c0 H0).
      apply (keepsTable_handleMethodCall params {| this := c; log := page_log w |}).
    + rewrite (handleHardwareCall_unfocused params w F).
      destruct (initialize_sets w) as [c [Ec [_ [_ Hsame]]]].
      exists c. split; [exact Ec|]. intros c0 H0. rewrite (Hsame c0 H0).
      apply sameTable_refl.
Qed.

(** *** Focus gating *)

Lemma dispatch_leaves_a_trace (p : CallRequest) (s : Store) :
  eventsOf p s
  ++ match fst (handleMethodCall p s) with
     | Normal _ => []
     | Throw e => [EvUnhandledRejection e]
     end
  <> [].
Proof.
  pose proof (handleMethodCall_outcomes p s) as H.
  destruct (fst (handleMethodCall p s)) as [u|e].
  - destruct H as [o [Ho _]]. unfold outcomesOf in Ho.
    destruct (eventsOf p s); [discriminate Ho | discriminate].
  - destruct (eventsOf p s); discriminate.
Qed.

(** C7.  With the document focused, the request is handed to
    [handleMethodCall] of the page's controller and the page keeps what the
    call did; such a call always leaves a trace in the log.  Without focus
    the call does nothing beyond making sure the controller exists: the log
    is unchanged (so no keyring method ran and no outcome was sent) and a
    page that already had its controller is returned as it is.  Hence the
    log changes if and only if the document is focused. *)
Theorem focus_gating (params : CallRequest) (w : Page) :
  (document_hasFocus w = true ->
     exists c,
       clientKeyringController (initializeClientKeyringController w) = Some c
       /\ clientKeyringController (handleHardwareCall params w)
          = Some (this (snd (handleMethodCall params {| this := c; log := page_log w |})))
       /\ page_log (handleHardwareCall params w)
          = log (snd (handleMethodCall params {| this := c; log := page_log w |}))
            ++ match fst (handleMethodCall params {| this := c; log := page_log w |}) with
               | Normal _ => []
               | Throw e => [EvUnhandledRejection e]
               end)
  /\ (document_hasFocus w = false ->
        handleHardwareCall params w = initializeClientKeyringController w
        /\ page_log (handleHardwareCall params w) = page_log w
        /\ (forall c, clientKeyringController w = Some c ->
                      handleHardwareCall params w = w))
  /\ (page_log (handleHardwareCall params w) <> page_log w
      <-> document_hasFocus w = true).
Proof.
  split; [apply handleHardwareCall_focused | split].
  - intros F. rewrite (handleHardwareCall_unfocused params w F).
    destruct (initialize_sets w) as [c [_ [_ [El _]]]].
    split; [reflexivity | split; [exact El|]].
    intros c0 H0. unfold initializeClientKeyringController. rewrite H0. reflexivity.
  - destruct (document_hasFocus w) eqn:F.
    + split; [reflexivity | intros _].
      destruct (handleHardwareCall_focused params w F) as [c [_ [_ El]]].
      rewrite El, eventsOf_spec. simpl. rewrite <- app_assoc. intros E.
      apply (dispatch_leaves_a_trace params {| this := c; log := page_log w |}).
      apply (app_inv_head (page_log w)). rewrite app_nil_r. exact E.
    + split; [|discriminate]. intros H. exfalso. apply H.
      rewrite (handleHardwareCall_unfocused params w F).
      destruct (initialize_sets w) as [c [_ [_ [El _]]]]. exact El.
Qed.

(* ------------------------------------------------------------------ *)
(** *** Invariants of a call *)

Lemma triple_ret {A} (P : Store -> Prop) (a : A) (Q : Completion A -> Store -> Prop) :
  (forall s, P s -> Q (Normal a) s) -> triple P (ret a) Q.
Proof. intros H s Hs. apply H. exact Hs. Qed.

Lemma triple_lift {A} (P : Store -> Prop) (c : Completion A)
    (Q : Completion A -> Store -> Prop) :
  (forall s, P s -> Q c s) -> triple P (lift c) Q.
Proof. intros H s Hs. apply H. exact Hs. Qed.

Lemma triple_bind {A B} (P : Store -> Prop) (m : M A) (k : A -> M B)
    (R : A -> Store -> Prop) (Q : Completion B -> Store -> Prop) :
  triple P m (fun c s => match c with
                         | Normal a => R a s
                         | Throw e => Q (Throw e) s
                         end) ->
  (forall a, triple (R a) (k a) Q) ->
  triple P (bind m k) Q.
Proof.
  intros Hm Hk s Hs. unfold bind. pose proof (Hm s Hs) as H.
  destruct (m s) as [[a|e] s']; simpl in H.
  - apply Hk. exact H.
  - exact H.
Qed.

Lemma triple_try_catch {A} (P : Store -> Prop) (m : M A) (h : JsValue -> M A)
    (R : JsValue -> Store -> Prop) (Q : Completion A -> Store -> Prop) :
  triple P m (fun c s => match c with
                         | Normal a => Q (Normal a) s
                         | Throw e => R e s
                         end) ->
  (forall e, triple (R e) (h e) Q) ->
  triple P (try_catch m h) Q.
Proof.
  intros Hm Hh s Hs. unfold try_catch. pose proof (Hm s Hs) as H.
  destruct (m s) as [[a|e] s']; simpl in H.
  - exact H.
  - apply Hh. exact H.
Qed.

Lemma triple_pure_pre {A} (X : Prop) (P : Store -> Prop) (m : M A)
    (Q : Completion A -> Store -> Prop) :
  (X -> triple P m Q) -> triple (fun s => X /\ P s) m Q.
Proof. intros H s [HX Hs]. apply (H HX). exact Hs. Qed.

Lemma triple_keyringType (P : Store -> Prop) (keyring : option nat) :
  triple P (keyringType keyring) (fun _ s => P s).
Proof.
  intros s Hs. unfold keyringType. destruct keyring as [r|]; [|exact Hs].
  destruct (nth_error (keyringInstances (this s)) r); exact Hs.
Qed.

(** An invariant that fixes the result of the instance lookup for the type
    of the request, and that the keyring calls on that instance and the
    background calls keep, is kept by the whole call. *)
Lemma handleMethodCall_invariant (I : Store -> Prop) (p : CallRequest)
    (r0 : option nat) :
  (forall s, I s -> getKeyringInstanceForType (req_type p) (this s) = r0) ->
  (forall callee name args,
      triple I (callKeyring callee r0 name args) (fun _ s => I s)) ->
  (forall m a, triple I (callBackgroundMethod m a) (fun _ s => I s)) ->
  triple I (handleMethodCall p) (fun _ s => I s).
Proof.
  intros Hlook Hcall Hbg.
  assert (Hthis : triple I (thisKeyringInstanceForType (req_type p))
                    (fun c s => match c with
                                | Normal a => a = r0 /\ I s
                                | Throw _ => I s
                                end)).
  { intros s Hs. simpl. split; [apply Hlook; exact Hs | exact Hs]. }
  assert (Hweak : forall A (m : M A),
             triple I m (fun _ s => I s) ->
             triple I m (fun c s => match c with
                                    | Normal _ => I s
                                    | Throw _ => I s
                                    end)).
  { intros A m Hm s Hs. pose proof (Hm s Hs) as H.
    destruct (fst (m s)); exact H. }
  assert (Hserialize : triple I (getUpdatedKeyringData (req_type p)) (fun _ s => I s)).
  { unfold getUpdatedKeyringData.
    apply (triple_bind _ _ _ (fun a s => a = r0 /\ I s)); [exact Hthis|].
    intros a. apply triple_pure_pre. intros ->.
    apply (triple_bind _ _ _ (fun _ s => I s)); [apply Hweak; apply Hcall|].
    intros v. apply triple_ret. intros s Hs. exact Hs. }
  unfold handleMethodCall.
  apply (triple_bind _ _ _ (fun _ s => I s)).
  { apply Hweak. unfold updateKeyringData.
    apply (triple_bind _ _ _ (fun a s => a = r0 /\ I s)); [exact Hthis|].
    intros a. apply triple_pure_pre. intros ->.
    apply (triple_bind _ _ _ (fun _ s => I s)); [apply Hweak; apply Hcall|].
    intros v. apply triple_ret. intros s Hs. exact Hs. }
  intros _.
  apply (triple_bind _ _ _ (fun _ s => I s)).
  { apply Hweak. apply triple_lift. intros s Hs. exact Hs. }
  intros args.
  apply (triple_bind _ _ _ (fun a s => a = r0 /\ I s)); [exact Hthis|].
  intros a. apply triple_pure_pre. intros ->.
  apply (triple_try_catch _ _ _ (fun _ s => I s)).
  - apply Hweak. unfold tryBlock.
    apply (triple_bind _ _ _ (fun _ s => I s)); [apply Hweak; apply Hcall|].
    intros v.
    apply (triple_bind _ _ _ (fun _ s => I s)).
    { apply Hweak. apply triple_lift. intros s Hs. exact Hs. }
    intros res.
    apply (triple_bind _ _ _ (fun _ s => I s)); [apply Hweak; exact Hserialize|].
    intros newState.
    apply (triple_bind _ _ _ (fun _ s => I s)).
    { apply Hweak. apply triple_keyringType. }
    intros _. apply Hbg.
  - intros e. unfold catchBlock.
    apply (triple_bind _ _ _ (fun _ s => I s)).
    { apply Hweak. apply triple_keyringType. }
    intros _.
    apply (triple_bind _ _ _ (fun _ s => I s)).
    { apply Hweak. apply triple_lift. intros s Hs. exact Hs. }
    intros d. apply Hbg.
Qed.

Lemma nth_error_updateAt_other {A} (g : A -> A) (l : list A) (r i : nat) :
  i <> r -> nth_error (updateAt r g l) i = nth_error l i.
Proof.
  revert r i. induction l as [|a l IH]; intros [|r] [|i] H; simpl; try reflexivity.
  - exfalso. apply H. reflexivity.
  - apply IH. intros E. apply H. rewrite E. reflexivity.
Qed.

Lemma rejections_app (l1 l2 : list Event) :
  rejections (l1 ++ l2) = rejections l1 ++ rejections l2.
Proof.
  induction l1 as [|e l1 IH]; simpl; [reflexivity|].
  destruct e; simpl; rewrite IH; reflexivity.
Qed.

(* ------------------------------------------------------------------ *)
(** *** Outcomes and rejections of a call *)

(** X1.  A call that completes normally has sent exactly one outcome
    message, a resolve or a reject carrying the [promiseId] of the request;
    a call that throws has sent none.  In no case are two outcomes sent. *)
Theorem call_outcome_dichotomy (p : CallRequest) (s : Store) :
  match fst (handleMethodCall p s) with
  | Normal _ =>
      exists o, outcomesOf p s = [o]
                /\ promiseId o = req_promiseId p
                /\ (result o = "resolve" \/ result o = "reject")
  | Throw _ => outcomesOf p s = []
  end.
Proof. exact (handleMethodCall_outcomes p s). Qed.

Lemma call_records_no_rejection (p : CallRequest) (s : Store) :
  rejections (log (snd (handleMethodCall p s))) = rejections (log s).
Proof.
  apply (handleMethodCall_invariant
           (fun s' => rejections (log s') = rejections (log s)
                      /\ getKeyringInstanceForType (req_type p) (this s')
                         = getKeyringInstanceForType (req_type p) (this s))
           p (getKeyringInstanceForType (req_type p) (this s))).
  - intros s' [_ H]. exact H.
  - intros callee name args s' [Hr Hl]. unfold callKeyring.
    destruct (getKeyringInstanceForType (req_type p) (this s)) as [r|];
      [|split; assumption].
    destruct (nth_error (keyringInstances (this s')) r) as [k|]; [|split; assumption].
    destruct (kr_methods k name) as [f|]; [|split; assumption].
    destruct (f args (kr_state k)) as [c st']. simpl. split.
    + rewrite rejections_app. simpl. rewrite app_nil_r. exact Hr.
    + rewrite <- Hl. apply findIndex_updateAt. reflexivity.
  - intros m a s' [Hr Hl]. simpl. split.
    + rewrite rejections_app. simpl. rewrite app_nil_r. exact Hr.
    + exact Hl.
  - split; reflexivity.
Qed.

(** X2.  On a focused page a hardware call adds to the log either exactly
    one outcome message (for the [promiseId] of the request) and no
    unhandled rejection, or exactly one unhandled rejection and no outcome
    message: the background is answered or the failure is lost, never
    both. *)
Theorem focused_call_reports_or_escapes (params : CallRequest) (w : Page) :
  document_hasFocus w = true ->
  exists new,
    page_log (handleHardwareCall params w) = page_log w ++ new
    /\ ((exists o, outcomes new = [o]
                   /\ promiseId o = req_promiseId params
                   /\ rejections new = [])
        \/ (exists e, outcomes new = [] /\ rejections new = [e])).
Proof.
  intros F.
  destruct (handleHardwareCall_focused params w F) as [c [_ [_ El]]].
  set (s := {| this := c; log := page_log w |}) in *.
  pose proof (handleMethodCall_outcomes params s) as Ho.
  pose proof (call_records_no_rejection params s) as Hr.
  rewrite eventsOf_spec, rejections_app in Hr.
  assert (Hr' : rejections (eventsOf params s) = []).
  { apply (app_inv_head (rejections (log s))). rewrite app_nil_r. exact Hr. }
  rewrite eventsOf_spec in El. simpl in El. rewrite <- app_assoc in El.
  eexists. split; [exact El|].
  destruct (fst (handleMethodCall params s)) as [u|e].
  - left. destruct Ho as [o [Ho [Hp _]]]. exists o.
    rewrite app_nil_r. unfold outcomesOf in Ho.
    split; [exact Ho | split; [exact Hp | exact Hr']].
  - right. exists e. unfold outcomesOf in Ho.
    rewrite outcomes_app, rejections_app, Ho, Hr'. split; reflexivity.
Qed.

(** X3.  A call changes nothing but the in-memory state of the instance it
    targets: every other instance of the table, and the table of classes,
    are after the call what they were before. *)
Theorem call_touches_only_target (p : CallRequest) (s : Store) (i : nat) :
  getKeyringInstanceForType (req_type p) (this s) <> Some i ->
  nth_error (keyringInstances (this (snd (handleMethodCall p s)))) i
  = nth_error (keyringInstances (this s)) i
  /\ keyrings (this (snd (handleMethodCall p s))) = keyrings (this s).
Proof.
  intros Hi. split; [|apply (keepsTable_handleMethodCall p s)].
  apply (handleMethodCall_invariant
           (fun s' => nth_error (keyringInstances (this s')) i
                      = nth_error (keyringInstances (this s)) i
                      /\ getKeyringInstanceForType (req_type p) (this s')
                         = getKeyringInstanceForType (req_type p) (this s))
           p (getKeyringInstanceForType (req_type p) (this s))).
  - intros s' [_ H]. exact H.
  - intros callee name args s' [Hn Hl]. unfold callKeyring.
    destruct (getKeyringInstanceForType (req_type p) (this s)) as [r|] eqn:Er;
      [|split; assumption].
    destruct (nth_error (keyringInstances (this s')) r) as [k|]; [|split; assumption].
    destruct (kr_methods k name) as [f|]; [|split; assumption].
    destruct (f args (kr_state k)) as [c st']. simpl. split.
    + rewrite nth_error_updateAt_other; [exact Hn|].
      intros E. apply Hi. rewrite E. reflexivity.
    + rewrite <- Hl. apply findIndex_updateAt. reflexivity.
  - intros m a s' H. exact H.
  - split; reflexivity.
Qed.

(* ------------------------------------------------------------------ *)
(** *** The state a failed call leaves *)

(** X5.  A call is not rolled back.  Once the overwrite with [prevState]
    has completed, leaving the instance in state [st1], the instance keeps
    that state when the arguments do not transform or the method is not
    callable, and keeps the state [st2] the method left when the method
    throws; the state from before the call is not restored. *)
Theorem failed_call_is_not_rolled_back
    (p : CallRequest) (s : Store) (r : nat) (k : Keyring) (d : Method)
    (v0 st1 : JsValue) :
  getKeyringInstanceForType (req_type p) (this s) = Some r ->
  nth_error (keyringInstances (this s)) r = Some k ->
  kr_methods k "deserialize" = Some d ->
  d [req_prevState p] (kr_state k) = (Normal v0, st1) ->
  (forall e,
      processArgs (req_args p) (req_method p) = Throw e ->
      nth_error (keyringInstances (this (snd (handleMethodCall p s)))) r
      = Some (setState st1 k))
  /\ (forall args',
        processArgs (req_args p) (req_method p) = Normal args' ->
        kr_methods k (req_method p) = None ->
        nth_error (keyringInstances (this (snd (handleMethodCall p s)))) r
        = Some (setState st1 k))
  /\ (forall args' f e st2,
        processArgs (req_args p) (req_method p) = Normal args' ->
        kr_methods k (req_method p) = Some f ->
        f args' st1 = (Throw e, st2) ->
        nth_error (keyringInstances (this (snd (handleMethodCall p s)))) r
        = Some (setState st2 k)).
Proof.
  intros Hfind Hk Hd Hdes. split; [|split].
  - intros e Ha.
    rewrite (handleMethodCall_args_fail p s r k Hfind Hk d _ st1 Hd Hdes
               v0 e eq_refl Ha).
    simpl. apply nth_error_updateAt. exact Hk.
  - intros args' Ha Hn.
    rewrite (handleMethodCall_enters_try p s r k Hfind Hk d _ st1 Hd Hdes
               v0 args' eq_refl Ha).
    unfold try_catch. rewrite (tryBlock_not_callable p s r k Hk st1 args' Hn).
    erewrite catchBlock_reject;
      [| apply afterCall_nth; exact Hk | apply rejectData_TypeError].
    simpl. apply nth_error_updateAt. exact Hk.
  - intros args' f e st2 Ha Hf Hc.
    rewrite (handleMethodCall_enters_try p s r k Hfind Hk d _ st1 Hd Hdes
               v0 args' eq_refl Ha).
    unfold try_catch.
    rewrite (tryBlock_invocation_throws p s r k Hfind Hk st1 args' f e st2 Hf Hc).
    assert (N : nth_error
                  (keyringInstances
                     (this (afterCall
                              (afterCall s r st1
                                 (EvKeyringCall (req_type p) "deserialize"
                                    [req_prevState p] (kr_state k)))
                              r st2
                              (EvKeyringCall (req_type p) (req_method p) args' st1))))
                  r
                = Some (setState st2 k)).
    { apply (afterCall_nth _ r st2 _ (setState st1 k)).
      apply afterCall_nth. exact Hk. }
    destruct (rejectData e) as [dta|x] eqn:Hr.
    + erewrite catchBlock_reject; [| exact N | exact Hr]. exact N.
    + destruct (catchBlock_throws p
                  (afterCall
                     (afterCall s r st1
                        (EvKeyringCall (req_type p) "deserialize"
                           [req_prevState p] (kr_state k)))
                     r st2 (EvKeyringCall (req_type p) (req_method p) args' st1))
                  (Some r) e x Hr) as [y Ey].
      rewrite Ey. exact N.
Qed.

(** X8.  A method that rejects with [undefined] or [null] is never
    reported: reading [e.message] in the [catch] block throws, so the call
    itself throws and no outcome message is sent. *)
Theorem nullish_rejection_is_not_reported
    (p : CallRequest) (s : Store) (r : nat) (k : Keyring) (d f : Method)
    (v0 st1 e st2 : JsValue) (args' : list JsValue) :
  getKeyringInstanceForType (req_type p) (this s) = Some r ->
  nth_error (keyringInstances (this s)) r = Some k ->
  kr_methods k "deserialize" = Some d ->
  d [req_prevState p] (kr_state k) = (Normal v0, st1) ->
  processArgs (req_args p) (req_method p) = Normal args' ->
  kr_methods k (req_method p) = Some f ->
  f args' st1 = (Throw e, st2) ->
  e = JUndefined \/ e = JNull ->
  (exists x, fst (handleMethodCall p s) = Throw x) /\ outcomesOf p s = [].
Proof.
  intros Hfind Hk Hd Hdes Ha Hf Hc He.
  assert (Hr : exists x, rejectData e = Throw x).
  { destruct He as [-> | ->]; eexists; reflexivity. }
  destruct Hr as [x Hr].
  pose proof (handleMethodCall_enters_try p s r k Hfind Hk d _ st1 Hd Hdes
                v0 args' eq_refl Ha) as E.
  unfold try_catch in E.
  rewrite (tryBlock_invocation_throws p s r k Hfind Hk st1 args' f e st2 Hf Hc) in E.
  destruct (catchBlock_throws p
              (afterCall
                 (afterCall s r st1
                    (EvKeyringCall (req_type p) "deserialize"
                       [req_prevState p] (kr_state k)))
                 r st2 (EvKeyringCall (req_type p) (req_method p) args' st1))
              (Some r) e x Hr) as [y Ey].
  rewrite Ey in E.
  assert (T : fst (handleMethodCall p s) = Throw y) by (rewrite E; reflexivity).
  split; [exists y; exact T|].
  pose proof (handleMethodCall_outcomes p s) as Ho. rewrite T in Ho. exact Ho.
Qed.

(* ------------------------------------------------------------------ *)
(** *** The two transformations *)

(** X6.  For [signTransaction] the transformed argument list always has a
    first and a second element: a request with fewer than two arguments is
    padded with [undefined] in first position and with whatever
    [buildUnserializedTxFromHex(undefined)] gives in second.  The first
    argument and the arguments from the third on are kept as they are, and
    the transformation throws exactly what the decoding throws. *)
Theorem processArgs_signTransaction_shape (args : list JsValue) :
  match processArgs args "signTransaction" with
  | Normal out =>
      buildUnserializedTxFromHex (nth 1 args JUndefined)
      = Normal (nth 1 out JUndefined)
      /\ List.length out = Nat.max 2 (List.length args)
      /\ nth 0 out JUndefined = nth 0 args JUndefined
      /\ skipn 2 out = skipn 2 args
  | Throw e => buildUnserializedTxFromHex (nth 1 args JUndefined) = Throw e
  end.
Proof.
  unfold processArgs. simpl.
  destruct (buildUnserializedTxFromHex (nth 1 args JUndefined)) as [tx|e];
    [|reflexivity].
  split; [reflexivity | split; [|split; reflexivity]].
  destruct args as [|a [|b rest]]; reflexivity.
Qed.

(** X7.  The result transformation throws in one case only: a
    [signTransaction] result that is a data object holding a truthy
    [serialize] that cannot be called.  Otherwise its result is stable
    (transforming it again changes nothing) and, for [signTransaction], is
    never a transaction object: what goes into the outcome message is the
    hex string. *)
Theorem processKeyringResponse_stable (res : JsValue) (method : string) :
  match processKeyringResponse res method with
  | Normal out =>
      processKeyringResponse out method = Normal out
      /\ (method = "signTransaction" -> forall bs, out <> JTx bs)
  | Throw e =>
      method = "signTransaction"
      /\ e = TypeError "res.serialize is not a function"
      /\ exists props, res = JObj props
                       /\ truthy (lookup "serialize" props) = true
  end.
Proof.
  unfold processKeyringResponse.
  destruct (String.eqb method "signTransaction") eqn:Em.
  - apply String.eqb_eq in Em.
    destruct res as [| |b|n|str|items|props|bs|name message cause]; simpl;
      try (split; [reflexivity | intros _ bs' H; discriminate H]).
    destruct (truthy (lookup "serialize" props)) eqn:T.
    + split; [exact Em | split; [reflexivity|]]. exists props. split; [reflexivity | exact T].
    + simpl. rewrite T. split; [reflexivity | intros _ bs' H; discriminate H].
  - split; [reflexivity|]. intros E. rewrite E in Em. discriminate Em.
Qed.

(* ------------------------------------------------------------------ *)
(** *** The relay keeps no state of its own *)

Lemma logParametric_ret {A} (a : A) : logParametric (ret a).
Proof.
  intros c l1 l2. simpl. repeat split. exists []. rewrite !app_nil_r.
  split; reflexivity.
Qed.

Lemma logParametric_lift {A} (x : Completion A) : logParametric (lift x).
Proof.
  intros c l1 l2. simpl. repeat split. exists []. rewrite !app_nil_r.
  split; reflexivity.
Qed.

Lemma logParametric_thisKeyringInstanceForType (type : string) :
  logParametric (thisKeyringInstanceForType type).
Proof.
  intros c l1 l2. simpl. repeat split. exists []. rewrite !app_nil_r.
  split; reflexivity.
Qed.

Lemma logParametric_keyringType (keyring : option nat) :
  logParametric (keyringType keyring).
Proof.
  intros c l1 l2. unfold keyringType. simpl.
  destruct keyring as [r|];
    [destruct (nth_error (keyringInstances c) r)|];
    simpl; repeat split; exists []; rewrite !app_nil_r; split; reflexivity.
Qed.

Lemma logParametric_callBackgroundMethod (method : string) (args : list CallResult) :
  logParametric (callBackgroundMethod method args).
Proof.
  intros c l1 l2. simpl. repeat split. eexists. split; reflexivity.
Qed.

Lemma logParametric_callKeyring (callee : string) (keyring : option nat)
    (name : string) (args : list JsValue) :
  logParametric (callKeyring callee keyring name args).
Proof.
  intros c l1 l2. unfold callKeyring. simpl.
  destruct keyring as [r|];
    [|simpl; repeat split; exists []; rewrite !app_nil_r; split; reflexivity].
  destruct (nth_error (keyringInstances c) r) as [k|];
    [|simpl; repeat split; exists []; rewrite !app_nil_r; split; reflexivity].
  destruct (kr_methods k name) as [f|];
    [|simpl; repeat split; exists []; rewrite !app_nil_r; split; reflexivity].
  destruct (f args (kr_state k)) as [x st']. simpl.
  repeat split. eexists. split; reflexivity.
Qed.

Lemma logParametric_bind {A B} (m : M A) (k : A -> M B) :
  logParametric m -> (forall a, logParametric (k a)) -> logParametric (bind m k).
Proof.
  intros Hm Hk c l1 l2. unfold bind.
  destruct (Hm c l1 l2) as [E1 [E2 [new [L1 L2]]]].
  destruct (m {| this := c; log := l1 |}) as [x1 [c1 g1]].
  destruct (m {| this := c; log := l2 |}) as [x2 [c2 g2]].
  simpl in *. subst x2 c2 g1 g2.
  destruct x1 as [a|e].
  - destruct (Hk a c1 (l1 ++ new) (l2 ++ new)) as [F1 [F2 [new' [K1 K2]]]].
    split; [exact F1 | split; [exact F2|]].
    exists (new ++ new'). rewrite K1, K2, !app_assoc. split; reflexivity.
  - simpl. repeat split. exists new. split; reflexivity.
Qed.

Lemma logParametric_try_catch {A} (m : M A) (h : JsValue -> M A) :
  logParametric m -> (forall e, logParametric (h e)) ->
  logParametric (try_catch m h).
Proof.
  intros Hm Hh c l1 l2. unfold try_catch.
  destruct (Hm c l1 l2) as [E1 [E2 [new [L1 L2]]]].
  destruct (m {| this := c; log := l1 |}) as [x1 [c1 g1]].
  destruct (m {| this := c; log := l2 |}) as [x2 [c2 g2]].
  simpl in *. subst x2 c2 g1 g2.
  destruct x1 as [a|e].
  - simpl. repeat split. exists new. split; reflexivity.
  - destruct (Hh e c1 (l1 ++ new) (l2 ++ new)) as [F1 [F2 [new' [K1 K2]]]].
    split; [exact F1 | split; [exact F2|]].
    exists (new ++ new'). rewrite K1, K2, !app_assoc. split; reflexivity.
Qed.

Lemma logParametric_handleMethodCall (p : CallRequest) :
  logParametric (handleMethodCall p).
Proof.
  unfold handleMethodCall, updateKeyringData, tryBlock, catchBlock,
    getUpdatedKeyringData.
  repeat first
    [ apply logParametric_bind | apply logParametric_try_catch
    | apply logParametric_ret | apply logParametric_lift
    | apply logParametric_thisKeyringInstanceForType
    | apply logParametric_keyringType
    | apply logParametric_callBackgroundMethod
    | apply logParametric_callKeyring
    | intros ? ].
Qed.

Lemma updateAt_updateAt {A} (f g : A -> A) (l : list A) (r : nat) :
  updateAt r f (updateAt r g l) = updateAt r (fun x => f (g x)) l.
Proof.
  revert r. induction l as [|a l IH]; intros [|r]; simpl; try reflexivity.
  rewrite IH. reflexivity.
Qed.

Lemma updateAt_same_state (st st' : JsValue) (l : list Keyring) (r : nat) :
  updateAt r (setState st) (updateAt r (setState st') l)
  = updateAt r (setState st) l.
Proof.
  revert r. induction l as [|a l IH]; intros [|r]; simpl; try reflexivity.
  rewrite IH. reflexivity.
Qed.

Lemma outcomesOf_log_independent (p : CallRequest) (c : ClientKeyringController)
    (l1 l2 : list Event) :
  fst (handleMethodCall p {| this := c; log := l1 |})
  = fst (handleMethodCall p {| this := c; log := l2 |})
  /\ this (snd (handleMethodCall p {| this := c; log := l1 |}))
     = this (snd (handleMethodCall p {| this := c; log := l2 |}))
  /\ eventsOf p {| this := c; log := l1 |} = eventsOf p {| this := c; log := l2 |}.
Proof.
  destruct (logParametric_handleMethodCall p c l1 l2) as [E1 [E2 [new [L1 L2]]]].
  split; [exact E1 | split; [exact E2|]].
  rewrite (eventsOf_intro p _ new L1), (eventsOf_intro p _ new L2). reflexivity.
Qed.

(** X4.  The relay carries nothing over from one call to the next.  When
    the [deserialize] of the target instance is a full overwrite for the
    [prevState] of the request (what it does with [prevState] does not
    depend on the state the instance was in), how the call completes, the
    outcome it sends and the controller it leaves are the same whatever
    state the instance held before the call and whatever was logged
    before. *)
Theorem call_ignores_prior_state
    (p : CallRequest) (c : ClientKeyringController) (r : nat) (k : Keyring)
    (d : Method) (st' : JsValue) (l l' : list Event) :
  getKeyringInstanceForType (req_type p) c = Some r ->
  nth_error (keyringInstances c) r = Some k ->
  kr_methods k "deserialize" = Some d ->
  (forall st, d [req_prevState p] st = d [req_prevState p] (kr_state k)) ->
  fst (handleMethodCall p {| this := withInstanceState c r st'; log := l' |})
  = fst (handleMethodCall p {| this := c; log := l |})
  /\ this (snd (handleMethodCall p {| this := withInstanceState c r st'; log := l' |}))
     = this (snd (handleMethodCall p {| this := c; log := l |}))
  /\ outcomesOf p {| this := withInstanceState c r st'; log := l' |}
     = outcomesOf p {| this := c; log := l |}.
Proof.
  intros Hfind Hk Hd Hover.
  set (s := {| this := c; log := l |}).
  set (s' := {| this := withInstanceState c r st'; log := l' |}).
  destruct (d [req_prevState p] (kr_state k)) as [c0 st1] eqn:Hdes.
  assert (Hfind' : getKeyringInstanceForType (req_type p) (this s') = Some r).
  { unfold s', withInstanceState, getKeyringInstanceForType. simpl.
    rewrite findIndex_updateAt; [exact Hfind | reflexivity]. }
  assert (Hk' : nth_error (keyringInstances (this s')) r = Some (setState st' k)).
  { unfold s', withInstanceState. simpl. apply nth_error_updateAt. exact Hk. }
  assert (Hdes' : d [req_prevState p] (kr_state (setState st' k)) = (c0, st1)).
  { simpl. apply Hover. }
  pose proof (updateKeyringData_run p s r k Hfind Hk d c0 st1 Hd Hdes) as U.
  pose proof (updateKeyringData_run p s' r (setState st' k) Hfind' Hk' d c0 st1
                Hd Hdes') as U'.
  set (K := fun _ : unit =>
              args <- lift (processArgs (req_args p) (req_method p)) ;;
              keyring <- thisKeyringInstanceForType (req_type p) ;;
              try_catch (tryBlock p keyring args) (catchBlock p keyring)).
  assert (HK : logParametric (K tt)).
  { unfold K, tryBlock, catchBlock, getUpdatedKeyringData.
    repeat first
      [ apply logParametric_bind | apply logParametric_try_catch
      | apply logParametric_ret | apply logParametric_lift
      | apply logParametric_thisKeyringInstanceForType
      | apply logParametric_keyringType
      | apply logParametric_callBackgroundMethod
      | apply logParametric_callKeyring
      | intros ? ]. }
  set (c1 := {| keyrings := keyrings c;
                keyringInstances := updateAt r (setState st1) (keyringInstances c) |}).
  set (ev := EvKeyringCall (req_type p) "deserialize" [req_prevState p] (kr_state k)).
  set (ev' := EvKeyringCall (req_type p) "deserialize" [req_prevState p] st').
  assert (S1 : afterCall s r st1 ev = {| this := c1; log := l ++ [ev] |})
    by reflexivity.
  assert (S1' : afterCall s' r st1 ev' = {| this := c1; log := l' ++ [ev'] |}).
  { unfold afterCall, s', withInstanceState, c1. simpl.
    rewrite updateAt_same_state. reflexivity. }
  fold ev in U. rewrite S1 in U.
  change (EvKeyringCall (req_type p) "deserialize" [req_prevState p]
            (kr_state (setState st' k))) with ev' in U'.
  rewrite S1' in U'.
  assert (E : handleMethodCall p s
              = match c0 with
                | Normal _ => K tt {| this := c1; log := l ++ [ev] |}
                | Throw e => (Throw e, {| this := c1; log := l ++ [ev] |})
                end).
  { unfold handleMethodCall. fold K. unfold bind at 1. rewrite U.
    destruct c0; reflexivity. }
  assert (E' : handleMethodCall p s'
               = match c0 with
                 | Normal _ => K tt {| this := c1; log := l' ++ [ev'] |}
                 | Throw e => (Throw e, {| this := c1; log := l' ++ [ev'] |})
                 end).
  { unfold handleMethodCall. fold K. unfold bind at 1. rewrite U'.
    destruct c0; reflexivity. }
  destruct c0 as [v0|e].
  - destruct (HK c1 (l' ++ [ev']) (l ++ [ev])) as [F1 [F2 [new [L1 L2]]]].
    rewrite E, E'. split; [exact F1 | split; [exact F2|]].
    unfold outcomesOf.
    rewrite (eventsOf_intro p s (ev :: new)), (eventsOf_intro p s' (ev' :: new)).
    + reflexivity.
    + rewrite E', L1. simpl. rewrite <- app_assoc. reflexivity.
    + rewrite E, L2. simpl. rewrite <- app_assoc. reflexivity.
  - rewrite E, E'. split; [reflexivity | split; [reflexivity|]].
    unfold outcomesOf.
    rewrite (eventsOf_intro p s [ev]), (eventsOf_intro p s' [ev']).
    + reflexivity.
    + rewrite E'. reflexivity.
    + rewrite E. reflexivity.
Qed.

End Relay.

(* ================================================================== *)
(** ** The relay on the sample environment *)

(** The store of a freshly constructed controller over the sample table. *)
#[local] Abbreviation sampleStore :=
  {| this := newClientKeyringController SAMPLE_KEYRINGS; log := [] |}.

#[local] Abbreviation ledger := (cls_new (sampleKeyringClass "ledger")).

(** The request for the software keyring type, on the sample table. *)
Lemma unsupported_type_sends_no_outcome_witness :
  handleMethodCall sampleBuildTx unsupportedRequest sampleStore
  = (Throw (TypeError "Cannot read properties of undefined (reading 'deserialize')"),
     sampleStore)
  /\ outcomesOf sampleBuildTx unsupportedRequest sampleStore = [].
Proof.
  apply (unsupported_type_sends_no_outcome sampleBuildTx unsupportedRequest
           sampleStore).
  reflexivity.
Defined.

(** The same request handed to [handleHardwareCall] on a focused page. *)
Lemma unsupported_type_rejection_escapes_witness :
  page_log (handleHardwareCall SAMPLE_KEYRINGS sampleBuildTx unsupportedRequest
              (emptyPage true))
  = [ EvUnhandledRejection
        (TypeError "Cannot read properties of undefined (reading 'deserialize')") ].
Proof.
  apply (unsupported_type_rejection_escapes SAMPLE_KEYRINGS sampleBuildTx
           unsupportedRequest (emptyPage true)
           (newClientKeyringController SAMPLE_KEYRINGS));
    reflexivity.
Defined.

(** Other failures that happen outside the [try] block, or inside the
    [catch] block, leave the call the same way: a transaction that does not
    decode, a [prevState] the keyring cannot load, a rejection with no
    reason. *)
Example undecodable_transaction_escapes :
  page_log (handleHardwareCall SAMPLE_KEYRINGS sampleBuildTx
              (sampleRequest "ledger" "signTransaction"
                 [JStr "m/44'/60'/0'/0/0"; JStr "0x01f"] (sampleState true))
              (emptyPage true))
  = [ EvKeyringCall "ledger" "deserialize" [sampleState true] (JObj []);
      EvUnhandledRejection (JError "Error" "invalid hex string" JUndefined) ].
Proof. reflexivity. Qed.

Example unloadable_state_escapes :
  page_log (handleHardwareCall SAMPLE_KEYRINGS sampleBuildTx
              (sampleRequest "ledger" "getAppName" [] JNull) (emptyPage true))
  = [ EvKeyringCall "ledger" "deserialize" [JNull] (JObj []);
      EvUnhandledRejection
        (TypeError "Cannot read properties of null (reading 'hdPath')") ].
Proof. reflexivity. Qed.

Example rejection_without_reason_escapes :
  page_log (handleHardwareCall SAMPLE_KEYRINGS sampleBuildTx
              (sampleRequest "ledger" "abort" [] (sampleState true))
              (emptyPage true))
  = [ EvKeyringCall "ledger" "deserialize" [sampleState true] (JObj []);
      EvKeyringCall "ledger" "abort" [] (sampleState true);
      EvUnhandledRejection
        (TypeError "Cannot read properties of undefined (reading 'message')") ].
Proof. reflexivity. Qed.

(** An unsupported method, by contrast, fails inside the [try] block and is
    reported. *)
Example unsupported_method_is_rejected :
  outcomesOf sampleBuildTx
    (sampleRequest "ledger" "signTypedData" [] (sampleState true)) sampleStore
  = [ {| promiseId := JStr "p1"; result := "reject";
         data := JStr "keyring[method] is not a function" |} ].
Proof. reflexivity. Qed.

(** The scenario of the design document: the overwrite comes first, the
    method runs on the overwritten state with the decoded transaction. *)
Lemma state_overwrite_precedes_invocation_witness :
  exists rest,
    eventsOf sampleBuildTx (signRequest (sampleState true)) sampleStore
    = EvKeyringCall "ledger" "deserialize" [sampleState true] (JObj []) :: rest
    /\ exists more,
         rest = EvKeyringCall "ledger" "signTransaction"
                  [JStr "m/44'/60'/0'/0/0"; JTx [x01; xff]%byte]
                  (sampleState true)
                :: more.
Proof.
  exact (state_overwrite_precedes_invocation sampleBuildTx
           (signRequest (sampleState true)) sampleStore 0 ledger sampleDeserialize
           eq_refl eq_refl eq_refl
           sampleSignTransaction (Normal JUndefined) (sampleState true)
           eq_refl eq_refl).
Defined.

(** The succeeding [signTransaction] scenario resolves with the new state
    and the hex string of the signed transaction. *)
Lemma signTransaction_hex_in_hex_out_witness :
  outcomesOf sampleBuildTx (signRequest (sampleState true)) sampleStore
  = [ {| promiseId := JStr "p1";
         result := "resolve";
         data := JObj [("newState",
                        JObj [("approve", JBool true); ("signed", JBool true)]);
                       ("response", JStr "0x01ff1b")] |} ].
Proof.
  destruct (signTransaction_hex_in_hex_out sampleBuildTx
              (signRequest (sampleState true)) sampleStore 0 ledger sampleDeserialize
              eq_refl eq_refl eq_refl JUndefined (sampleState true) eq_refl
              sampleSignTransaction eq_refl eq_refl) as [more [E H]].
  unfold outcomesOf. rewrite E.
  rewrite (H [x01; xff; x1b]%byte sampleSerialize
             (JObj [("approve", JBool true); ("signed", JBool true)])
             (JObj [("approve", JBool true); ("signed", JBool true)])
             (JObj [("approve", JBool true); ("signed", JBool true)])
             eq_refl eq_refl eq_refl).
  reflexivity.
Defined.

(** The scenario in which the user rejects on the device: no resolve. *)
Lemma throwing_invocation_never_resolves_witness :
  Forall (fun o => result o <> "resolve")
    (outcomesOf sampleBuildTx (signRequest (sampleState false)) sampleStore).
Proof.
  apply (throwing_invocation_never_resolves sampleBuildTx
           (signRequest (sampleState false)) sampleStore 0 ledger sampleDeserialize
           eq_refl eq_refl eq_refl JUndefined (sampleState false) eq_refl
           [JStr "m/44'/60'/0'/0/0"; JTx [x01; xff]%byte] eq_refl).
  right. exists sampleSignTransaction, (JError "Error" "User rejected" JUndefined),
    (sampleState false).
  split; reflexivity.
Defined.


(** A [getAppName] call passes its argument and its result through. *)
Lemma other_methods_pass_through_witness :
  processArgs sampleBuildTx [JNum 7] "getAppName" = Normal [JNum 7]
  /\ processKeyringResponse (JStr "Ethereum") "getAppName" = Normal (JStr "Ethereum")
  /\ eventsOf sampleBuildTx appNameRequest sampleStore
     = [ EvKeyringCall "ledger" "deserialize" [sampleState true] (JObj []);
         EvKeyringCall "ledger" "getAppName" [JNum 7] (sampleState true);
         EvKeyringCall "ledger" "serialize" [] (sampleState true);
         EvBackgroundCall "closeBackgroundPromise"
           [ {| promiseId := JStr "p1";
                result := "resolve";
                data := JObj [("newState", sampleState true);
                              ("response", JStr "Ethereum")] |} ] ].
Proof.
  assert (N : "getAppName" <> "signTransaction") by discriminate.
  destruct (other_methods_pass_through sampleBuildTx "getAppName" N) as [A [B C]].
  split; [apply A | split; [apply B |]].
  exact (C appNameRequest sampleStore 0 ledger sampleDeserialize sampleGetAppName
           sampleSerialize JUndefined (sampleState true) (JStr "Ethereum")
           (sampleState true) (sampleState true) (sampleState true)
           eq_refl eq_refl eq_refl eq_refl eq_refl eq_refl eq_refl eq_refl eq_refl).
Defined.

(** The software keyring type is not in the sample table. *)
Lemma unsupported_type_lookup_undefined_witness :
  getKeyringClassForType "HD Key Tree" (newClientKeyringController SAMPLE_KEYRINGS)
  = None
  /\ getKeyringInstanceForType "HD Key Tree"
       (newClientKeyringController SAMPLE_KEYRINGS) = None
  /\ updateKeyringData "HD Key Tree" (sampleState true) sampleStore
     = (Throw (TypeError "Cannot read properties of undefined (reading 'deserialize')"),
        sampleStore).
Proof.
  apply (unsupported_type_lookup_undefined
           (newClientKeyringController SAMPLE_KEYRINGS) "HD Key Tree"
           (sampleState true) []).
  - simpl. intros [H|[H|[]]]; discriminate H.
  - simpl. intros [H|[H|[]]]; discriminate H.
Defined.

(** The sample table has one instance of type ["trezor"], and a second
    initialization leaves the page as the first one made it. *)
Lemma initialize_once_witness :
  List.length
    (filter (fun kr => String.eqb (kr_type kr) "trezor")
       (keyringInstances (newClientKeyringController SAMPLE_KEYRINGS))) = 1
  /\ initializeClientKeyringController SAMPLE_KEYRINGS
       (initializeClientKeyringController SAMPLE_KEYRINGS (emptyPage false))
     = initializeClientKeyringController SAMPLE_KEYRINGS (emptyPage false).
Proof.
  destruct (initialize_once SAMPLE_KEYRINGS sampleBuildTx)
    as [Idem [_ [_ [_ [One _]]]]].
  split; [|apply Idem].
  apply One.
  - simpl. repeat constructor; simpl; intuition discriminate.
  - intros K [<-|[<-|[]]]; reflexivity.
  - simpl. right. left. reflexivity.
Defined.

(** On a focused page the sample request is processed; on an unfocused one
    it is dropped. *)
Lemma focus_gating_witness :
  page_log (handleHardwareCall SAMPLE_KEYRINGS sampleBuildTx
              (signRequest (sampleState true)) (emptyPage true))
  <> page_log (emptyPage true)
  /\ handleHardwareCall SAMPLE_KEYRINGS sampleBuildTx
       (signRequest (sampleState true)) (emptyPage false)
     = initializeClientKeyringController SAMPLE_KEYRINGS (emptyPage false).
Proof.
  split.
  - apply (proj2 (proj2 (focus_gating SAMPLE_KEYRINGS sampleBuildTx
                           (signRequest (sampleState true)) (emptyPage true)))).
    reflexivity.
  - apply (proj1 (proj2 (focus_gating SAMPLE_KEYRINGS sampleBuildTx
                           (signRequest (sampleState true)) (emptyPage false)))).
    reflexivity.
Defined.

(* ------------------------------------------------------------------ *)
(** *** Further scenarios *)

(** A call of another method on a focused page: one outcome, no
    rejection. *)
Lemma focused_call_reports_or_escapes_witness :
  exists new,
    page_log (handleHardwareCall SAMPLE_KEYRINGS sampleBuildTx appNameRequest
                (emptyPage true))
    = page_log (emptyPage true) ++ new
    /\ ((exists o, outcomes new = [o]
                   /\ promiseId o = req_promiseId appNameRequest
                   /\ rejections new = [])
        \/ (exists e, outcomes new = [] /\ rejections new = [e])).
Proof.
  apply (focused_call_reports_or_escapes SAMPLE_KEYRINGS sampleBuildTx
           appNameRequest (emptyPage true)).
  reflexivity.
Defined.

(** The signing scenario leaves the ["trezor"] instance alone. *)
Lemma call_touches_only_target_witness :
  nth_error (keyringInstances
               (this (snd (handleMethodCall sampleBuildTx
                             (signRequest (sampleState true)) sampleStore)))) 1
  = nth_error (keyringInstances (this sampleStore)) 1
  /\ keyrings (this (snd (handleMethodCall sampleBuildTx
                            (signRequest (sampleState true)) sampleStore)))
     = keyrings (this sampleStore).
Proof.
  apply (call_touches_only_target sampleBuildTx (signRequest (sampleState true))
           sampleStore 1).
  vm_compute. discriminate.
Defined.

(** The signing scenario on an instance a refused call had left in the
    refusing state, after some other traffic. *)
Lemma call_ignores_prior_state_witness :
  fst (handleMethodCall sampleBuildTx (signRequest (sampleState true))
         {| this := withInstanceState (newClientKeyringController SAMPLE_KEYRINGS)
                      0 (sampleState false);
            log := [EvUnhandledRejection JNull] |})
  = fst (handleMethodCall sampleBuildTx (signRequest (sampleState true)) sampleStore)
  /\ this (snd (handleMethodCall sampleBuildTx (signRequest (sampleState true))
                  {| this := withInstanceState
                               (newClientKeyringController SAMPLE_KEYRINGS)
                               0 (sampleState false);
                     log := [EvUnhandledRejection JNull] |}))
     = this (snd (handleMethodCall sampleBuildTx (signRequest (sampleState true))
                    sampleStore))
  /\ outcomesOf sampleBuildTx (signRequest (sampleState true))
       {| this := withInstanceState (newClientKeyringController SAMPLE_KEYRINGS)
                    0 (sampleState false);
          log := [EvUnhandledRejection JNull] |}
     = outcomesOf sampleBuildTx (signRequest (sampleState true)) sampleStore.
Proof.
  apply (call_ignores_prior_state sampleBuildTx (signRequest (sampleState true))
           (newClientKeyringController SAMPLE_KEYRINGS) 0 ledger sampleDeserialize
           (sampleState false) [] [EvUnhandledRejection JNull]).
  - reflexivity.
  - reflexivity.
  - reflexivity.
  - intros st. reflexivity.
Defined.

(** The refused signature: the instance stays in the refusing state the
    request brought. *)
Lemma failed_call_is_not_rolled_back_witness :
  nth_error (keyringInstances
               (this (snd (handleMethodCall sampleBuildTx
                             (signRequest (sampleState false)) sampleStore)))) 0
  = Some (setState (sampleState false) ledger).
Proof.
  apply (proj2 (proj2 (failed_call_is_not_rolled_back sampleBuildTx
                         (signRequest (sampleState false)) sampleStore 0 ledger
                         sampleDeserialize JUndefined (sampleState false)
                         eq_refl eq_refl eq_refl eq_refl))
           [JStr "m/44'/60'/0'/0/0"; JTx [x01; xff]%byte] sampleSignTransaction
           (JError "Error" "User rejected" JUndefined) (sampleState false)).
  - reflexivity.
  - reflexivity.
  - reflexivity.
Defined.

(** The method that rejects with no reason. *)
Lemma nullish_rejection_is_not_reported_witness :
  (exists x, fst (handleMethodCall sampleBuildTx
                    (sampleRequest "ledger" "abort" [] (sampleState true))
                    sampleStore) = Throw x)
  /\ outcomesOf sampleBuildTx
       (sampleRequest "ledger" "abort" [] (sampleState true)) sampleStore = [].
Proof.
  apply (nullish_rejection_is_not_reported sampleBuildTx
           (sampleRequest "ledger" "abort" [] (sampleState true)) sampleStore
           0 ledger sampleDeserialize sampleAbort JUndefined (sampleState true)
           JUndefined (sampleState true) []).
  - reflexivity.
  - reflexivity.
  - reflexivity.
  - reflexivity.
  - reflexivity.
  - reflexivity.
  - reflexivity.
  - left. reflexivity.
Defined.

(* ================================================================== *)
(** ** Properties of the test driver *)

(** *** Strings *)

Lemma startsWith_spec (s pre : string) :
  startsWith s pre = true <-> exists rest, s = (pre ++ rest)%string.
Proof.
  revert s. induction pre as [|a pre IH]; intros s; simpl.
  - split; [intros _; exists s; reflexivity | intros _; reflexivity].
  - destruct s as [|b s]; [split; [discriminate | intros [rest H]; discriminate H]|].
    destruct (Ascii.eqb a b) eqn:E.
    + apply Ascii.eqb_eq in E. subst b. rewrite IH. split.
      * intros [rest ->]. exists rest. reflexivity.
      * intros [rest H]. injection H as ->. exists rest. reflexivity.
    + split; [discriminate|]. intros [rest H]. injection H as -> _.
      rewrite Ascii.eqb_refl in E. discriminate E.
Qed.

Lemma includes_spec (s sub : string) :
  includes s sub = true <-> exists before after, s = (before ++ sub ++ after)%string.
Proof.
  induction s as [|c s IH]; simpl.
  - destruct (startsWith "" sub) eqn:P.
    + split; [intros _|reflexivity]. apply startsWith_spec in P.
      destruct P as [rest P]. exists "", rest. exact P.
    + split; [discriminate|]. intros [before [after H]].
      destruct before as [|x before]; [|discriminate H]. simpl in H.
      assert (T : startsWith "" sub = true)
        by (apply startsWith_spec; exists after; exact H).
      rewrite T in P. discriminate P.
  - destruct (startsWith (String c s) sub) eqn:P.
    + split; [intros _|reflexivity]. apply startsWith_spec in P.
      destruct P as [rest P]. exists "", rest. exact P.
    + rewrite IH. split.
      * intros [before [after ->]]. exists (String c before), after. reflexivity.
      * intros [before [after H]]. destruct before as [|x before].
        -- simpl in H.
           assert (T : startsWith (String c s) sub = true)
             by (apply startsWith_spec; exists after; exact H).
           rewrite T in P. discriminate P.
        -- simpl in H. injection H as _ ->. exists before, after. reflexivity.
Qed.

Lemma includes_empty (s : string) : includes s "" = true.
Proof. destruct s; reflexivity. Qed.

(** *** Browser errors *)

(** X10.  A reported message is ignored exactly when it begins with
    ["Warning:"] or contains an entry of the ignore list somewhere in it;
    no other message is ignored. *)
Theorem logBrowserError_ignores_exactly (ignoreList : list string)
    (message : string) :
  logBrowserError ignoreList (JStr message) = Normal true
  <-> (exists rest, message = ("Warning:" ++ rest)%string)
      \/ (exists entry before after,
             In entry ignoreList /\ message = (before ++ entry ++ after)%string).
Proof.
  unfold logBrowserError.
  destruct (startsWith message "Warning:") eqn:W.
  - split; [intros _|reflexivity]. left. apply startsWith_spec. exact W.
  - split.
    + intros H. right. injection H as H. unfold isInIgnoreList in H.
      apply existsb_exists in H. destruct H as [entry [Hin Hi]].
      apply includes_spec in Hi. destruct Hi as [before [after Hi]].
      exists entry, before, after. split; assumption.
    + intros [Hw | [entry [before [after [Hin Hm]]]]].
      * apply startsWith_spec in Hw. rewrite Hw in W. discriminate W.
      * f_equal. unfold isInIgnoreList. apply existsb_exists.
        exists entry. split; [exact Hin|]. apply includes_spec.
        exists before, after. exact Hm.
Qed.

(** X11.  An empty string in the ignore list silences every message. *)
Theorem empty_ignore_entry_ignores_all (ignoreList : list string)
    (message : string) :
  In "" ignoreList ->
  logBrowserError ignoreList (JStr message) = Normal true.
Proof.
  intros H. unfold logBrowserError.
  destruct (startsWith message "Warning:"); [reflexivity|].
  f_equal. unfold isInIgnoreList. apply existsb_exists.
  exists "". split; [exact H | apply includes_empty].
Qed.

Lemma logBrowserError_false (ignoreList : list string) (v : JsValue) :
  logBrowserError ignoreList v = Normal false ->
  exists message,
    v = JStr message
    /\ startsWith message "Warning:" = false
    /\ forall entry, In entry ignoreList -> includes message entry = false.
Proof.
  unfold logBrowserError. intros H.
  destruct v as [| |b|n|message|items|props|bs|name msg cause]; try discriminate H.
  exists message. split; [reflexivity|].
  destruct (startsWith message "Warning:"); [discriminate H|].
  split; [reflexivity|]. injection H as H. intros entry Hin.
  unfold isInIgnoreList in H.
  destruct (includes message entry) eqn:E; [|reflexivity].
  assert (T : existsb (fun ignore => includes message ignore) ignoreList = true).
  { apply existsb_exists. exists entry. split; assumption. }
  rewrite T in H. discriminate H.
Qed.

(** X12.  The console listener leaves the list of errors as it is or
    appends one string to it, and a string it appends does not begin with
    ["Warning:"] and contains neither an entry of the list the test passed
    nor one of the three entries that are always ignored.  An event whose
    type is not ["error"], or that has no argument, appends nothing. *)
Theorem onConsoleEvent_records_only_reportable
    (sprintf : list JsValue -> Completion string) (ignored : list string)
    (event : ConsoleEvent) (errors errors' : list JsValue) :
  onConsoleEvent sprintf ignored event errors = Normal errors' ->
  (errors' = errors
   \/ exists message,
        errors' = errors ++ [JStr message]
        /\ startsWith message "Warning:" = false
        /\ forall entry,
             In entry ignored \/ In entry alwaysIgnoredConsoleErrors ->
             includes message entry = false)
  /\ (ce_type event <> "error" \/ ce_args event = [] -> errors' = errors).
Proof.
  unfold onConsoleEvent. intros H.
  destruct (String.eqb (ce_type event) "error") eqn:T.
  - apply String.eqb_eq in T.
    assert (Hrec : forall v,
               match logBrowserError (ignored ++ alwaysIgnoredConsoleErrors) v with
               | Throw e => Throw e
               | Normal true => Normal errors
               | Normal false => Normal (errors ++ [v])
               end = Normal errors' ->
               errors' = errors
               \/ exists message,
                    errors' = errors ++ [JStr message]
                    /\ startsWith message "Warning:" = false
                    /\ forall entry,
                         In entry ignored \/ In entry alwaysIgnoredConsoleErrors ->
                         includes message entry = false).
    { intros v Hv.
      destruct (logBrowserError (ignored ++ alwaysIgnoredConsoleErrors) v)
        as [[|]|e] eqn:L; try discriminate Hv.
      - left. injection Hv as <-. reflexivity.
      - right. injection Hv as <-.
        destruct (logBrowserError_false _ _ L) as [message [-> [W I]]].
        exists message. split; [reflexivity | split; [exact W|]].
        intros entry Hin. apply I. apply in_or_app. exact Hin. }
    destruct (filter _ (ce_args event)) as [|eventDescription rest] eqn:F.
    + destruct (ce_args event) as [|a args] eqn:A.
      * injection H as <-. split; [left; reflexivity | intros _; reflexivity].
      * split.
        -- destruct (getErrorFromEvent sprintf event) as [newError|e];
             [|discriminate H].
           apply (Hrec (JStr newError)). exact H.
        -- intros [N|N]; [exfalso; apply N; exact T | discriminate N].
    + split; [apply (Hrec (ro_description eventDescription)); exact H|].
      intros [N|N]; [exfalso; apply N; exact T|].
      rewrite N in F. discriminate F.
  - injection H as <-. split; [left; reflexivity | intros _; reflexivity].
Qed.

(** X25.  The exception listener throws exactly when the description it
    is handed is not a string.  Otherwise it leaves the list of exceptions
    as it is when the description begins with ["Warning:"] or contains an
    entry of the list the test passed, and appends the description when
    not; unlike the console listener it ignores nothing else. *)
Theorem onException_records_only_reportable (ignored : list string)
    (description : JsValue) (exceptions : list JsValue) :
  match onException ignored description exceptions with
  | Normal exceptions' =>
      exists message,
        description = JStr message
        /\ ((exceptions' = exceptions
             /\ (startsWith message "Warning:" = true
                 \/ exists entry, In entry ignored
                                  /\ includes message entry = true))
            \/ (exceptions' = exceptions ++ [JStr message]
                /\ startsWith message "Warning:" = false
                /\ forall entry, In entry ignored -> includes message entry = false))
  | Throw e => forall message, description <> JStr message
  end.
Proof.
  unfold onException.
  destruct (logBrowserError ignored description) as [[|]|e] eqn:L.
  - unfold logBrowserError in L.
    destruct description as [| |b|n|message|items|props|bs|name msg cause];
      try discriminate L.
    exists message. split; [reflexivity|]. left. split; [reflexivity|].
    destruct (startsWith message "Warning:"); [left; reflexivity|].
    right. injection L as L. unfold isInIgnoreList in L.
    apply existsb_exists in L. destruct L as [entry [Hin Hinc]].
    exists entry. split; assumption.
  - destruct (logBrowserError_false _ _ L) as [message [-> [W I]]].
    exists message. split; [reflexivity|]. right.
    split; [reflexivity | split; [exact W | exact I]].
  - intros message ->. discriminate L.
Qed.

Lemma js_join_two_nonempty (sep : string) (x y : JsValue) (rest : list JsValue) :
  sep <> "" -> js_join sep (x :: y :: rest) <> "".
Proof.
  intros Hs H. cbn [js_join] in H.
  destruct (match x with JUndefined | JNull => "" | _ => js_String x end)
    as [|c str]; simpl in H.
  - destruct sep as [|c sep]; [apply Hs; reflexivity | discriminate H].
  - discriminate H.
Qed.

(** X13.  When everything recorded is a string, the summary is empty in
    two cases only: nothing was recorded, or a single empty message was.
    A recorded empty message is therefore indistinguishable, in the
    summary, from no error at all. *)
Theorem summary_empty_iff (errors exceptions : list JsValue) :
  Forall (fun v => exists message, v = JStr message) (errors ++ exceptions) ->
  (summarizeErrorsAndExceptions errors exceptions = ""
   <-> errors ++ exceptions = [] \/ errors ++ exceptions = [JStr ""]).
Proof.
  unfold summarizeErrorsAndExceptions. intros Hs.
  destruct (errors ++ exceptions) as [|x [|y rest]].
  - split; [intros _; left; reflexivity | reflexivity].
  - inversion Hs as [|? ? [message ->] _]. simpl. split.
    + intros ->. right. reflexivity.
    + intros [J|J]; [discriminate J | injection J as ->; reflexivity].
  - split.
    + intros J. exfalso. revert J. apply js_join_two_nonempty. discriminate.
    + intros [J|J]; discriminate J.
Qed.

(** *** Locators *)

(** X9.  What [buildLocator] returns is a [By] or the locator object it was
    given, never a bare string.  Building again from the result (as
    [holdMouseDownOnElement] does) gives the same result when the value of
    the result is truthy and throws otherwise; and the value can only be
    falsy for the empty selector string or for an xpath computed from a
    [css] property. *)
Theorem buildLocator_twice (lib : CssToXPath) (locator built : Locator) :
  buildLocator lib locator = Normal built ->
  match built with
  | LocBy _ | LocObject _ => True
  | _ => False
  end
  /\ (truthy (locatorValue built) = true ->
      buildLocator lib built = Normal built)
  /\ (truthy (locatorValue built) = false ->
      (exists e, buildLocator lib built = Throw e)
      /\ (locator = LocString ""
          \/ exists props, locator = LocObject props
                           /\ truthy (lookup "css" props) = true)).
Proof.
  intros H.
  assert (Hby : forall b, built = LocBy b ->
            (truthy (locatorValue built) = true ->
             buildLocator lib built = Normal built)
            /\ (truthy (locatorValue built) = false ->
                exists e, buildLocator lib built = Throw e)).
  { intros b ->. simpl. split; intros T; rewrite T; [reflexivity|].
    eexists. reflexivity. }
  destruct locator as [str|b|props|n|b| |]; simpl in H; try discriminate H.
  - injection H as <-. destruct (Hby _ eq_refl) as [H1 H2].
    split; [exact I | split; [exact H1|]]. intros T. split; [apply H2; exact T|].
    left. simpl in T. destruct str; [reflexivity | discriminate T].
  - destruct (truthy (by_value b)) eqn:V; [|discriminate H]. injection H as <-.
    split; [exact I | split; [intros _; simpl; rewrite V; reflexivity|]].
    simpl. intros T. rewrite T in V. discriminate V.
  - destruct (truthy (lookup "value" props)) eqn:V.
    { injection H as <-.
      split; [exact I | split; [intros _; simpl; rewrite V; reflexivity|]].
      simpl. intros T. rewrite T in V. discriminate V. }
    destruct (truthy (lookup "xpath" props)) eqn:X.
    { injection H as <-. destruct (Hby _ eq_refl) as [H1 H2].
      split; [exact I | split; [exact H1|]]. simpl. intros T.
      rewrite T in X. discriminate X. }
    destruct (truthy (lookup "text" props)) eqn:Tx; [|discriminate H].
    destruct (truthy (lookup "css" props)) eqn:C.
    + assert (Hb : exists b, built = LocBy b).
      { destruct (lookup "text" props); try discriminate H.
        destruct (cssWhereContains lib _ _ _); [|discriminate H].
        injection H as <-. eexists. reflexivity. }
      destruct Hb as [b Hb]. destruct (Hby b Hb) as [H1 H2]. rewrite Hb.
      rewrite Hb in H1, H2.
      split; [exact I | split; [exact H1|]]. intros T.
      split; [apply H2; exact T|]. right. exists props. split; [reflexivity | exact C].
    + injection H as <-. destruct (Hby _ eq_refl) as [H1 H2].
      split; [exact I | split; [exact H1|]]. intros T. simpl in T. discriminate T.
Qed.

(** *** Polling for windows *)

Lemma polls_app (l1 l2 : list Action) : polls (l1 ++ l2) = (polls l1 + polls l2)%nat.
Proof.
  induction l1 as [|a l1 IH]; simpl; [reflexivity|].
  destruct a; simpl; rewrite IH; reflexivity.
Qed.

Lemma askedTime_app (l1 l2 : list Action) :
  askedTime (l1 ++ l2) = (askedTime l1 + askedTime l2)%Z.
Proof.
  induction l1 as [|a l1 IH]; simpl; [reflexivity|].
  destruct a; simpl; rewrite IH; lia.
Qed.

Lemma rounds_step (timeout timeElapsed delayStep : Z) :
  (0 < delayStep)%Z ->
  ((timeout - (timeElapsed + delayStep)) / delayStep
   = (timeout - timeElapsed) / delayStep - 1)%Z.
Proof.
  intros H.
  replace (timeout - (timeElapsed + delayStep))%Z
    with (timeout - timeElapsed + (-1) * delayStep)%Z by lia.
  rewrite Z.div_add by lia. lia.
Qed.

Lemma waitUntilXWindowHandles_from_terminates (b : Browser)
    (x delayStep timeout : Z) :
  (0 < delayStep)%Z ->
  forall (fuel : nat) (timeElapsed : Z) (sent : list Action),
    (Z.to_nat ((timeout - timeElapsed) / delayStep + 1) < fuel)%nat ->
    exists c new,
      waitUntilXWindowHandles_from b fuel x delayStep timeout timeElapsed sent
      = Some (c, sent ++ new)
      /\ (polls new <= Z.to_nat ((timeout - timeElapsed) / delayStep + 1))%nat.
Proof.
  intros Hstep fuel. induction fuel as [|fuel IH]; intros timeElapsed sent Hf.
  - lia.
  - simpl. destruct (Z.leb timeElapsed timeout) eqn:L.
    + apply Z.leb_le in L.
      assert (Q : (0 <= (timeout - timeElapsed) / delayStep)%Z)
        by (apply Z.div_pos; lia).
      unfold getAllWindowHandles.
      destruct (br_throws b sent ActGetAllWindowHandles) as [e|].
      * exists (Throw e), [ActGetAllWindowHandles]. split; [reflexivity|].
        simpl. lia.
      * destruct (Z.eqb (Z.of_nat (List.length (br_handles b sent))) x).
        -- exists (Normal (br_handles b sent)), [ActGetAllWindowHandles].
           split; [reflexivity|]. simpl. lia.
        -- destruct (IH (timeElapsed + delayStep)%Z
                       ((sent ++ [ActGetAllWindowHandles]) ++ [ActDelay delayStep]))
             as [c [new [E P]]].
           { rewrite rounds_step by exact Hstep. lia. }
           exists c, (ActGetAllWindowHandles :: ActDelay delayStep :: new).
           split.
           ++ rewrite E. rewrite <- !app_assoc. reflexivity.
           ++ rewrite rounds_step in P by exact Hstep. simpl. lia.
    + eexists. exists []. rewrite app_nil_r. split; [reflexivity|]. simpl. lia.
Qed.

(** X14.  With a positive delay step the polling loop ends: it returns or
    throws after at most [timeout / delayStep + 1] polls.  With a negative
    timeout it throws the timeout error at once, without asking the
    browser anything. *)
Theorem waitUntilXWindowHandles_terminates (b : Browser)
    (x delayStep timeout : Z) (fuel : nat) (sent : list Action) :
  (0 < delayStep)%Z ->
  (Z.to_nat (timeout / delayStep + 1) < fuel)%nat ->
  (exists c new,
      waitUntilXWindowHandles b fuel x delayStep timeout sent = Some (c, sent ++ new)
      /\ (polls new <= Z.to_nat (timeout / delayStep + 1))%nat)
  /\ ((timeout < 0)%Z ->
      waitUntilXWindowHandles b fuel x delayStep timeout sent
      = Some (Throw (JError "Error"
                       "waitUntilXWindowHandles timed out polling window handles"
                       JUndefined), sent)).
Proof.
  intros Hstep Hf. split.
  - unfold waitUntilXWindowHandles.
    destruct (waitUntilXWindowHandles_from_terminates b x delayStep timeout Hstep
                fuel 0%Z sent) as [c [new [E P]]].
    { rewrite Z.sub_0_r. exact Hf. }
    rewrite Z.sub_0_r in P. exists c, new. split; assumption.
  - intros Hneg. unfold waitUntilXWindowHandles.
    destruct fuel as [|fuel]; [lia|]. simpl.
    destruct (Z.leb 0 timeout) eqn:L; [apply Z.leb_le in L; lia | reflexivity].
Qed.

Lemma waitUntilXWindowHandles_from_success (b : Browser) (x delayStep timeout : Z)
    (fuel : nat) :
  forall (timeElapsed : Z) (sent sent' : list Action) (handles : list string),
    waitUntilXWindowHandles_from b fuel x delayStep timeout timeElapsed sent
    = Some (Normal handles, sent') ->
    Z.of_nat (List.length handles) = x
    /\ exists before,
         sent' = before ++ [ActGetAllWindowHandles]
         /\ handles = br_handles b before.
Proof.
  induction fuel as [|fuel IH]; intros timeElapsed sent sent' handles H.
  - discriminate H.
  - simpl in H. destruct (Z.leb timeElapsed timeout); [|discriminate H].
    unfold getAllWindowHandles in H.
    destruct (br_throws b sent ActGetAllWindowHandles) as [e|]; [discriminate H|].
    destruct (Z.eqb (Z.of_nat (List.length (br_handles b sent))) x) eqn:E.
    + injection H as <- <-. apply Z.eqb_eq in E. split; [exact E|].
      exists sent. split; reflexivity.
    + apply (IH _ _ _ _ H).
Qed.

(** X15.  When the polling returns, what it returns is what the browser
    reported at the last poll, and that list has exactly [x] handles. *)
Theorem waitUntilXWindowHandles_returns_x_handles (b : Browser)
    (x delayStep timeout : Z) (fuel : nat) (sent sent' : list Action)
    (handles : list string) :
  waitUntilXWindowHandles b fuel x delayStep timeout sent
  = Some (Normal handles, sent') ->
  Z.of_nat (List.length handles) = x
  /\ exists before,
       sent' = before ++ [ActGetAllWindowHandles]
       /\ handles = br_handles b before.
Proof. apply waitUntilXWindowHandles_from_success. Qed.

Lemma waitUntilXWindowHandles_from_times_out (b : Browser)
    (x delayStep timeout : Z) :
  (0 < delayStep)%Z ->
  (forall sent, br_throws b sent ActGetAllWindowHandles = None) ->
  (forall sent, Z.of_nat (List.length (br_handles b sent)) <> x) ->
  forall (fuel : nat) (timeElapsed : Z) (sent : list Action),
    (timeElapsed <= timeout)%Z ->
    (Z.to_nat ((timeout - timeElapsed) / delayStep + 1) < fuel)%nat ->
    exists new,
      waitUntilXWindowHandles_from b fuel x delayStep timeout timeElapsed sent
      = Some (Throw (JError "Error"
                       "waitUntilXWindowHandles timed out polling window handles"
                       JUndefined), sent ++ new)
      /\ Z.of_nat (polls new) = ((timeout - timeElapsed) / delayStep + 1)%Z
      /\ askedTime new = (((timeout - timeElapsed) / delayStep + 1) * delayStep)%Z.
Proof.
  intros Hstep Hquiet Hnever fuel.
  induction fuel as [|fuel IH]; intros timeElapsed sent Hle Hf.
  - lia.
  - assert (Q : (0 <= (timeout - timeElapsed) / delayStep)%Z)
      by (apply Z.div_pos; lia).
    simpl. destruct (Z.leb timeElapsed timeout) eqn:L;
      [|apply Z.leb_gt in L; lia].
    unfold getAllWindowHandles. rewrite Hquiet.
    destruct (Z.eqb (Z.of_nat (List.length (br_handles b sent))) x) eqn:E;
      [apply Z.eqb_eq in E; exfalso; exact (Hnever sent E)|].
    destruct (Z_le_gt_dec (timeElapsed + delayStep) timeout) as [Hin|Hout].
    + destruct (IH (timeElapsed + delayStep)%Z
                  ((sent ++ [ActGetAllWindowHandles]) ++ [ActDelay delayStep]) Hin)
        as [new [Ev [P T]]].
      { rewrite rounds_step by exact Hstep. lia. }
      exists (ActGetAllWindowHandles :: ActDelay delayStep :: new).
      rewrite rounds_step in P, T by exact Hstep.
      split; [|split].
      * rewrite Ev. rewrite <- !app_assoc. reflexivity.
      * simpl polls. lia.
      * simpl askedTime. rewrite T. lia.
    + assert (Z0 : ((timeout - timeElapsed) / delayStep = 0)%Z)
        by (apply Z.div_small; lia).
      exists [ActGetAllWindowHandles; ActDelay delayStep].
      destruct fuel as [|fuel]; [rewrite Z0 in Hf; simpl in Hf; lia|].
      simpl. destruct (Z.leb (timeElapsed + delayStep) timeout) eqn:L';
        [apply Z.leb_le in L'; lia|].
      rewrite Z0. split; [|split].
      * rewrite <- !app_assoc. reflexivity.
      * reflexivity.
      * simpl askedTime. lia.
Qed.

(** X16.  When the browser never has [x] windows, the polling gives up
    only after [timeout / delayStep + 1] polls, each followed by a pause of
    [delayStep]: the time it has spent pausing by then,
    [(timeout / delayStep + 1) * delayStep], exceeds the timeout. *)
Theorem waitUntilXWindowHandles_gives_up_late (b : Browser)
    (x delayStep timeout : Z) (fuel : nat) (sent : list Action) :
  (0 < delayStep)%Z ->
  (0 <= timeout)%Z ->
  (forall sent, br_throws b sent ActGetAllWindowHandles = None) ->
  (forall sent, Z.of_nat (List.length (br_handles b sent)) <> x) ->
  (Z.to_nat (timeout / delayStep + 1) < fuel)%nat ->
  exists new,
    waitUntilXWindowHandles b fuel x delayStep timeout sent
    = Some (Throw (JError "Error"
                     "waitUntilXWindowHandles timed out polling window handles"
                     JUndefined), sent ++ new)
    /\ Z.of_nat (polls new) = (timeout / delayStep + 1)%Z
    /\ askedTime new = ((timeout / delayStep + 1) * delayStep)%Z
    /\ (timeout < askedTime new)%Z.
Proof.
  intros Hstep Ht Hquiet Hnever Hf. unfold waitUntilXWindowHandles.
  destruct (waitUntilXWindowHandles_from_times_out b x delayStep timeout
              Hstep Hquiet Hnever fuel 0%Z sent Ht) as [new [E [P T]]].
  { rewrite Z.sub_0_r. exact Hf. }
  rewrite Z.sub_0_r in P, T. exists new.
  split; [exact E | split; [exact P | split; [exact T|]]].
  rewrite T.
  pose proof (Z.mod_pos_bound timeout delayStep Hstep) as M.
  pose proof (Z.div_mod timeout delayStep) as D.
  assert (D' : timeout = (delayStep * (timeout / delayStep) + timeout mod delayStep)%Z)
    by (apply D; lia).
  nia.
Qed.

(** X17.  With a delay step of zero (or a negative one) and a browser that
    never has [x] windows, the polling never ends: however many rounds are
    followed, it has neither returned nor thrown. *)
Theorem waitUntilXWindowHandles_can_spin (b : Browser)
    (x delayStep timeout : Z) (sent : list Action) :
  (delayStep <= 0)%Z ->
  (0 <= timeout)%Z ->
  (forall sent, br_throws b sent ActGetAllWindowHandles = None) ->
  (forall sent, Z.of_nat (List.length (br_handles b sent)) <> x) ->
  forall fuel, waitUntilXWindowHandles b fuel x delayStep timeout sent = None.
Proof.
  intros Hstep Ht Hquiet Hnever fuel. unfold waitUntilXWindowHandles.
  assert (G : forall timeElapsed sent0,
             (timeElapsed <= timeout)%Z ->
             waitUntilXWindowHandles_from b fuel x delayStep timeout timeElapsed sent0
             = None).
  { induction fuel as [|fuel IH]; intros timeElapsed sent0 Hle; [reflexivity|].
    simpl. destruct (Z.leb timeElapsed timeout) eqn:L;
      [|apply Z.leb_gt in L; lia].
    unfold getAllWindowHandles. rewrite Hquiet.
    destruct (Z.eqb (Z.of_nat (List.length (br_handles b sent0))) x) eqn:E;
      [apply Z.eqb_eq in E; exfalso; exact (Hnever sent0 E)|].
    apply IH. lia. }
  apply G. exact Ht.
Qed.

(** *** Closing windows *)

Lemma closeEachExcept_prefix (b : Browser) (exceptions : list string) :
  forall (windowHandles : list string) (sent : list Action),
  exists new rest,
    snd (closeEachExcept b exceptions windowHandles sent) = sent ++ new
    /\ flat_map closingOf
         (filter (fun handle => negb (existsb (String.eqb handle) exceptions))
                 windowHandles)
       = new ++ rest
    /\ (fst (closeEachExcept b exceptions windowHandles sent) = Normal tt ->
        rest = []).
Proof.
  induction windowHandles as [|handle hs IH]; intros sent.
  - exists [], []. simpl. rewrite app_nil_r. repeat split; reflexivity.
  - simpl. destruct (existsb (String.eqb handle) exceptions) eqn:Ex; simpl.
    + apply IH.
    + unfold bindB, command, delay.
      destruct (br_throws b sent (ActSwitchToWindow handle)) as [e|].
      * exists [ActSwitchToWindow handle]. eexists. simpl.
        split; [reflexivity | split; [reflexivity | discriminate]].
      * destruct (br_throws b ((sent ++ [ActSwitchToWindow handle])
                                 ++ [ActDelay 1000]) ActClose) as [e|].
        -- exists [ActSwitchToWindow handle; ActDelay 1000; ActClose]. eexists.
           simpl. rewrite <- !app_assoc.
           split; [reflexivity | split; [reflexivity | discriminate]].
        -- destruct (IH ((((sent ++ [ActSwitchToWindow handle]) ++ [ActDelay 1000])
                            ++ [ActClose]) ++ [ActDelay 1000]))
             as [new [rest [E [F N]]]].
           exists (closingOf handle ++ new), rest.
           split; [|split].
           ++ rewrite E. rewrite <- !app_assoc. reflexivity.
           ++ rewrite F. rewrite <- app_assoc. reflexivity.
           ++ exact N.
Qed.

Lemma flat_map_closingOf_switch (handle : string) (handles : list string) :
  In (ActSwitchToWindow handle) (flat_map closingOf handles) -> In handle handles.
Proof.
  induction handles as [|h hs IH]; simpl; [intros []|].
  intros [E|[E|[E|[E|H]]]]; try discriminate E.
  - injection E as ->. left. reflexivity.
  - right. apply IH. exact H.
Qed.

(** X18.  Whatever the browser does, [closeAllWindowHandlesExcept] never
    switches to a window of the exception list, only to windows of the
    list it works on; the actions it takes after the optional fetch are a
    prefix of "switch, pause a second, close, pause a second" for each
    other window in order, and all of them when it returns. *)
Theorem closeAllWindowHandlesExcept_spares_exceptions (b : Browser)
    (exceptions : list string) (windowHandles : option (list string))
    (sent : list Action) :
  let handles := match windowHandles with
                 | Some given => given
                 | None => br_handles b sent
                 end in
  let fetch := match windowHandles with
               | Some _ => []
               | None => [ActGetAllWindowHandles]
               end in
  exists new rest,
    snd (closeAllWindowHandlesExcept b exceptions windowHandles sent)
    = sent ++ fetch ++ new
    /\ flat_map closingOf
         (filter (fun handle => negb (existsb (String.eqb handle) exceptions))
                 handles)
       = new ++ rest
    /\ (fst (closeAllWindowHandlesExcept b exceptions windowHandles sent)
        = Normal tt -> rest = [])
    /\ (forall handle, In (ActSwitchToWindow handle) new ->
                       In handle handles /\ ~ In handle exceptions).
Proof.
  intros handles fetch.
  assert (Spare : forall new rest,
             flat_map closingOf
               (filter (fun handle => negb (existsb (String.eqb handle) exceptions))
                       handles) = new ++ rest ->
             forall handle, In (ActSwitchToWindow handle) new ->
                            In handle handles /\ ~ In handle exceptions).
  { intros new rest F handle Hin.
    assert (Hin' : In (ActSwitchToWindow handle) (new ++ rest))
      by (apply in_or_app; left; exact Hin).
    rewrite <- F in Hin'. apply flat_map_closingOf_switch in Hin'.
    apply filter_In in Hin'. destruct Hin' as [Hh Hn]. split; [exact Hh|].
    intros Hex. apply negb_true_iff in Hn.
    assert (T : existsb (String.eqb handle) exceptions = true).
    { apply existsb_exists. exists handle. split; [exact Hex|].
      apply String.eqb_refl. }
    rewrite T in Hn. discriminate Hn. }
  unfold closeAllWindowHandlesExcept, bindB.
  destruct windowHandles as [given|]; simpl in handles, fetch; subst handles fetch.
  - unfold retB.
    destruct (closeEachExcept_prefix b exceptions given sent) as [new [rest [E [F N]]]].
    exists new, rest. simpl.
    split; [exact E | split; [exact F | split; [exact N | exact (Spare new rest F)]]].
  - unfold getAllWindowHandles.
    destruct (br_throws b sent ActGetAllWindowHandles) as [e|].
    + exists []. eexists. simpl.
      split; [reflexivity | split; [reflexivity | split; [discriminate|]]].
      intros handle [].
    + destruct (closeEachExcept_prefix b exceptions (br_handles b sent)
                  (sent ++ [ActGetAllWindowHandles])) as [new [rest [E [F N]]]].
      exists new, rest.
      split; [rewrite E; rewrite <- app_assoc; reflexivity|].
      split; [exact F | split; [exact N | exact (Spare new rest F)]].
Qed.

Lemma closeEachExcept_quiet (b : Browser) (exceptions : list string) :
  (forall sent handle, br_throws b sent (ActSwitchToWindow handle) = None) ->
  (forall sent, br_throws b sent ActClose = None) ->
  forall (windowHandles : list string) (sent : list Action),
    closeEachExcept b exceptions windowHandles sent
    = (Normal tt,
       sent ++ flat_map closingOf
                 (filter (fun handle => negb (existsb (String.eqb handle) exceptions))
                         windowHandles)).
Proof.
  intros Hs Hc. induction windowHandles as [|handle hs IH]; intros sent.
  - simpl. rewrite app_nil_r. reflexivity.
  - simpl. destruct (existsb (String.eqb handle) exceptions) eqn:Ex; simpl.
    + apply IH.
    + unfold bindB, command, delay. rewrite Hs, Hc. rewrite IH.
      rewrite <- !app_assoc. reflexivity.
Qed.

(** X19.  When switching and closing succeed and the list of windows is
    given, [closeAllWindowHandlesExcept] does not ask the browser for its
    windows, not even when the given list is empty; it closes each given
    window that is no exception, in order, and returns. *)
Theorem closeAllWindowHandlesExcept_given_list (b : Browser)
    (exceptions given : list string) (sent : list Action) :
  (forall sent handle, br_throws b sent (ActSwitchToWindow handle) = None) ->
  (forall sent, br_throws b sent ActClose = None) ->
  closeAllWindowHandlesExcept b exceptions (Some given) sent
  = (Normal tt,
     sent ++ flat_map closingOf
               (filter (fun handle => negb (existsb (String.eqb handle) exceptions))
                       given))
  /\ polls (flat_map closingOf
              (filter (fun handle => negb (existsb (String.eqb handle) exceptions))
                      given)) = O
  /\ askedTime (flat_map closingOf
                  (filter (fun handle => negb (existsb (String.eqb handle) exceptions))
                          given))
     = (2000 * Z.of_nat (List.length
                           (filter (fun handle =>
                                      negb (existsb (String.eqb handle) exceptions))
                                   given)))%Z.
Proof.
  intros Hs Hc. split; [|split].
  - unfold closeAllWindowHandlesExcept, bindB, retB.
    apply closeEachExcept_quiet; assumption.
  - induction (filter (fun handle => negb (existsb (String.eqb handle) exceptions))
                      given) as [|h l IH]; [reflexivity | simpl; exact IH].
  - induction (filter (fun handle => negb (existsb (String.eqb handle) exceptions))
                      given) as [|h l IH]; [reflexivity|].
    change (flat_map closingOf (h :: l)) with (closingOf h ++ flat_map closingOf l).
    rewrite askedTime_app. rewrite IH.
    change (List.length (h :: l)) with (S (List.length l)).
    rewrite Nat2Z.inj_succ. unfold closingOf. simpl askedTime. lia.
Qed.

(** *** Clicking *)

(** X20.  The patched [click] clicks the element once when that works and
    at most twice otherwise; every click is on the element itself, and when
    the first click works nothing else is done. *)
Theorem elementClick_at_most_twice (b : Browser) (timeout : Z) (element : nat)
    (sent : list Action) :
  exists new,
    snd (elementClick b timeout element sent)
    = sent ++ ActOriginalClick element :: new
    /\ (clicks new <= 1)%nat
    /\ (forall other, In (ActOriginalClick other) new -> other = element)
    /\ (br_throws b sent (ActOriginalClick element) = None ->
        new = [] /\ fst (elementClick b timeout element sent) = Normal tt).
Proof.
  unfold elementClick, bindB, liftB, retB, command.
  repeat (simpl;
          match goal with
          | |- context [br_throws ?b ?s ?a] => destruct (br_throws b s a) eqn:?
          | |- context [js_get ?e ?k] => destruct (js_get e k) eqn:?
          | |- context [js_includes ?c ?v ?n] => destruct (js_includes c v n) eqn:?
          | |- context [if ?c then _ else _] => destruct c eqn:?
          end);
    eexists;
    (split; [simpl; rewrite <- ?app_assoc; simpl; reflexivity|]);
    simpl; repeat split; auto; try discriminate;
    intros other H; simpl in H;
    repeat (destruct H as [H|H];
            [try discriminate H; try (injection H as ->; reflexivity)|]);
    destruct H.
Qed.

(** X21.  An error of the first click that is no interception is thrown
    again as it is: nothing is waited for and the click is not repeated. *)
Theorem elementClick_rethrows_other_errors (b : Browser) (timeout : Z)
    (element : nat) (sent : list Action) (e name : JsValue) :
  br_throws b sent (ActOriginalClick element) = Some e ->
  js_get e "name" = Normal name ->
  name <> JStr "ElementClickInterceptedError" ->
  elementClick b timeout element sent
  = (Throw e, sent ++ [ActOriginalClick element]).
Proof.
  intros Hthrow Hname Hother. unfold elementClick, command.
  rewrite Hthrow, Hname.
  destruct name as [| | | |n| | | |]; try reflexivity.
  destruct (String.eqb n "ElementClickInterceptedError") eqn:E; [|reflexivity].
  apply String.eqb_eq in E. subst n. exfalso. apply Hother. reflexivity.
Qed.

(** X22.  After an interception whose message names neither the loading
    overlay nor the modal backdrop, the click is repeated at once, with no
    wait in between, and what the second click does is the result: a second
    interception is thrown, not retried. *)
Theorem elementClick_retries_once (b : Browser) (timeout : Z) (element : nat)
    (sent : list Action) (message : string) (cause : JsValue) :
  br_throws b sent (ActOriginalClick element)
  = Some (JError "ElementClickInterceptedError" message cause) ->
  includes message loadingOverlayTag = false ->
  includes message modalBackdropTag = false ->
  elementClick b timeout element sent
  = (match br_throws b (sent ++ [ActOriginalClick element])
             (ActOriginalClick element) with
     | Some e2 => Throw e2
     | None => Normal tt
     end,
     sent ++ [ActOriginalClick element; ActOriginalClick element]).
Proof.
  intros Hthrow Ho Hb. unfold elementClick, command. rewrite Hthrow.
  simpl js_get. cbv iota. simpl String.eqb. cbv iota.
  unfold bindB, liftB, retB, js_includes, command. rewrite Ho, Hb.
  rewrite <- app_assoc. reflexivity.
Qed.

(** *** Asserting absence *)


(** X24.  Without a guard locator and with a guard time that is not
    negative, [assertElementNotPresent] either does nothing (the assertion
    on its options failed) or asks for no more than [timeout] in all: the
    pause and the limit of the wait add up to it, exactly so when it
    returns.  Every wait it starts has a positive limit. *)
Theorem assertElementNotPresent_time_budget (b : Browser) (lib : CssToXPath)
    (stringify : Locator -> string) (assertionError : JsValue) (thisTimeout : Z)
    (rawLocator findElementGuard : Locator) (waitAtLeastGuard timeout : Z)
    (sent : list Action) :
  locatorTruthy findElementGuard = false ->
  (0 <= waitAtLeastGuard)%Z ->
  exists new,
    snd (assertElementNotPresent b lib stringify assertionError thisTimeout
           rawLocator findElementGuard waitAtLeastGuard timeout sent)
    = sent ++ new
    /\ (askedTime new = 0 \/ askedTime new = waitAtLeastGuard
        \/ askedTime new = timeout)%Z
    /\ (new = [] \/ askedTime new <= timeout)%Z
    /\ (forall locator limit, In (ActWaitNotPresent locator limit) new ->
                              (0 < limit)%Z)
    /\ (fst (assertElementNotPresent b lib stringify assertionError thisTimeout
               rawLocator findElementGuard waitAtLeastGuard timeout sent)
        = Normal tt -> askedTime new = timeout).
Proof.
  intros Hguard Hpos.
  unfold assertElementNotPresent, bindB, liftB, retB, delay, command.
  rewrite Hguard.
  destruct (Z.ltb waitAtLeastGuard timeout) eqn:Hlt.
  2:{ exists []. rewrite app_nil_r. simpl.
      repeat split; auto; try discriminate. intros locator limit []. }
  apply Z.ltb_lt in Hlt.
  destruct (Z.ltb 0 waitAtLeastGuard) eqn:Hd;
    destruct (buildLocator lib rawLocator) as [locator|x].
  - exists [ActDelay waitAtLeastGuard;
            ActWaitNotPresent locator (timeout - waitAtLeastGuard)].
    destruct (br_throws b _ _); simpl; rewrite <- app_assoc; simpl;
      (split; [reflexivity|]);
      (split; [right; right; lia|]);
      (split; [right; lia|]);
      (split; [intros l t [E|[E|[]]]; [discriminate E | injection E as _ <-; lia]
              | intros _; lia || discriminate]).
  - exists [ActDelay waitAtLeastGuard]. simpl.
    split; [reflexivity|].
    split; [right; left; lia|].
    split; [right; lia|].
    split; [intros l t [E|[]]; discriminate E | discriminate].
  - apply Z.ltb_ge in Hd. assert (Z0 : waitAtLeastGuard = 0%Z) by lia. subst.
    exists [ActWaitNotPresent locator (timeout - 0)].
    destruct (br_throws b _ _); simpl;
      (split; [reflexivity|]);
      (split; [right; right; lia|]);
      (split; [right; lia|]);
      (split; [intros l t [E|[]]; injection E as _ <-; lia
              | intros _; lia || discriminate]).
  - exists []. rewrite app_nil_r. simpl.
    repeat split; auto; try discriminate. intros l t [].
Qed.


(* ================================================================== *)
(** ** The test driver on sample browsers *)

(** A locator by text and tag is built into an XPath locator, which
    [buildLocator] then returns as it is. *)
Lemma buildLocator_twice_witness :
  match LocBy (By_xpath (JStr "//button[contains(text(), 'Next')]")) with
  | LocBy _ | LocObject _ => True
  | _ => False
  end
  /\ (truthy (locatorValue (LocBy (By_xpath (JStr "//button[contains(text(), 'Next')]"))))
      = true ->
      buildLocator sampleCssToXPath
        (LocBy (By_xpath (JStr "//button[contains(text(), 'Next')]")))
      = Normal (LocBy (By_xpath (JStr "//button[contains(text(), 'Next')]"))))
  /\ (truthy (locatorValue (LocBy (By_xpath (JStr "//button[contains(text(), 'Next')]"))))
      = false ->
      (exists e, buildLocator sampleCssToXPath
                   (LocBy (By_xpath (JStr "//button[contains(text(), 'Next')]")))
                 = Throw e)
      /\ (LocObject [("text", JStr "Next"); ("tag", JStr "button")] = LocString ""
          \/ exists props,
               LocObject [("text", JStr "Next"); ("tag", JStr "button")]
               = LocObject props
               /\ truthy (lookup "css" props) = true)).
Proof.
  apply (buildLocator_twice sampleCssToXPath
           (LocObject [("text", JStr "Next"); ("tag", JStr "button")])
           (LocBy (By_xpath (JStr "//button[contains(text(), 'Next')]")))).
  reflexivity.
Defined.

(** An ignore list with an empty entry. *)
Lemma empty_ignore_entry_ignores_all_witness :
  logBrowserError ["favicon.ico"; ""] (JStr "Uncaught TypeError: x is undefined")
  = Normal true.
Proof.
  apply (empty_ignore_entry_ignores_all ["favicon.ico"; ""]
           "Uncaught TypeError: x is undefined").
  right. left. reflexivity.
Defined.

(** The sample console event is recorded as one message. *)
Lemma onConsoleEvent_records_only_reportable_witness :
  ([JStr "Failed to fetch 404"] = []
   \/ exists message,
        [JStr "Failed to fetch 404"] = [] ++ [JStr message]
        /\ startsWith message "Warning:" = false
        /\ forall entry,
             In entry ["status of 429"] \/ In entry alwaysIgnoredConsoleErrors ->
             includes message entry = false)
  /\ (ce_type sampleConsoleEvent <> "error" \/ ce_args sampleConsoleEvent = [] ->
      [JStr "Failed to fetch 404"] = []).
Proof.
  apply (onConsoleEvent_records_only_reportable sampleSprintf ["status of 429"]
           sampleConsoleEvent [] [JStr "Failed to fetch 404"]).
  reflexivity.
Defined.

(** One recorded empty message and no exception. *)
Lemma summary_empty_iff_witness :
  summarizeErrorsAndExceptions [JStr ""] [] = ""
  <-> [JStr ""] ++ [] = [] \/ [JStr ""] ++ [] = [JStr ""].
Proof.
  apply (summary_empty_iff [JStr ""] []).
  simpl. constructor; [exists ""; reflexivity | constructor].
Defined.

(** One window where two are awaited, polled every second for two and a
    half seconds. *)
Lemma waitUntilXWindowHandles_terminates_witness :
  (exists c new,
      waitUntilXWindowHandles (quietBrowser ["main"]) 10 2 1000 2500 []
      = Some (c, [] ++ new)
      /\ (polls new <= Z.to_nat (2500 / 1000 + 1))%nat)
  /\ ((2500 < 0)%Z ->
      waitUntilXWindowHandles (quietBrowser ["main"]) 10 2 1000 2500 []
      = Some (Throw (JError "Error"
                       "waitUntilXWindowHandles timed out polling window handles"
                       JUndefined), [])).
Proof.
  apply (waitUntilXWindowHandles_terminates (quietBrowser ["main"]) 2 1000 2500 10 []).
  - lia.
  - vm_compute. lia.
Defined.

(** Two windows where two are awaited. *)
Lemma waitUntilXWindowHandles_returns_x_handles_witness :
  Z.of_nat (List.length ["main"; "popup"]) = 2%Z
  /\ exists before,
       [ActGetAllWindowHandles] = before ++ [ActGetAllWindowHandles]
       /\ ["main"; "popup"] = br_handles (quietBrowser ["main"; "popup"]) before.
Proof.
  apply (waitUntilXWindowHandles_returns_x_handles (quietBrowser ["main"; "popup"])
           2 1000 10000 5 [] [ActGetAllWindowHandles] ["main"; "popup"]).
  reflexivity.
Defined.

(** One window where two are awaited: three polls and three seconds of
    pauses for a timeout of two and a half. *)
Lemma waitUntilXWindowHandles_gives_up_late_witness :
  exists new,
    waitUntilXWindowHandles (quietBrowser ["main"]) 10 2 1000 2500 []
    = Some (Throw (JError "Error"
                     "waitUntilXWindowHandles timed out polling window handles"
                     JUndefined), [] ++ new)
    /\ Z.of_nat (polls new) = (2500 / 1000 + 1)%Z
    /\ askedTime new = ((2500 / 1000 + 1) * 1000)%Z
    /\ (2500 < askedTime new)%Z.
Proof.
  apply (waitUntilXWindowHandles_gives_up_late (quietBrowser ["main"])
           2 1000 2500 10 []).
  - lia.
  - lia.
  - intros sent. reflexivity.
  - intros sent. simpl. lia.
  - vm_compute. lia.
Defined.

(** The same with a delay step of zero, followed for fifty rounds. *)
Lemma waitUntilXWindowHandles_can_spin_witness :
  waitUntilXWindowHandles (quietBrowser ["main"]) 50 2 0 2500 [] = None.
Proof.
  apply (waitUntilXWindowHandles_can_spin (quietBrowser ["main"]) 2 0 2500 []).
  - lia.
  - lia.
  - intros sent. reflexivity.
  - intros sent. simpl. lia.
Defined.

(** Three given windows, the first of them an exception. *)
Lemma closeAllWindowHandlesExcept_given_list_witness :
  closeAllWindowHandlesExcept (quietBrowser []) ["main"]
    (Some ["main"; "popup"; "dapp"]) []
  = (Normal tt,
     [] ++ flat_map closingOf
             (filter (fun handle => negb (existsb (String.eqb handle) ["main"]))
                     ["main"; "popup"; "dapp"]))
  /\ polls (flat_map closingOf
              (filter (fun handle => negb (existsb (String.eqb handle) ["main"]))
                      ["main"; "popup"; "dapp"])) = O
  /\ askedTime (flat_map closingOf
                  (filter (fun handle => negb (existsb (String.eqb handle) ["main"]))
                          ["main"; "popup"; "dapp"]))
     = (2000 * Z.of_nat (List.length
                           (filter (fun handle =>
                                      negb (existsb (String.eqb handle) ["main"]))
                                   ["main"; "popup"; "dapp"])))%Z.
Proof.
  apply (closeAllWindowHandlesExcept_given_list (quietBrowser []) ["main"]
           ["main"; "popup"; "dapp"] []).
  - intros sent handle. reflexivity.
  - intros sent. reflexivity.
Defined.

(** A click on an element that has gone stale. *)
Lemma elementClick_rethrows_other_errors_witness :
  elementClick
    (failingBrowser (JError "StaleElementReferenceError" "stale element" JUndefined))
    10000 7 []
  = (Throw (JError "StaleElementReferenceError" "stale element" JUndefined),
     [] ++ [ActOriginalClick 7]).
Proof.
  apply (elementClick_rethrows_other_errors
           (failingBrowser (JError "StaleElementReferenceError" "stale element"
                              JUndefined))
           10000 7 []
           (JError "StaleElementReferenceError" "stale element" JUndefined)
           (JStr "StaleElementReferenceError")).
  - reflexivity.
  - reflexivity.
  - discriminate.
Defined.

(** A click that another element keeps intercepting. *)
Lemma elementClick_retries_once_witness :
  elementClick
    (failingBrowser (JError "ElementClickInterceptedError"
                       "Other element would receive the click: <p>" JUndefined))
    10000 7 []
  = (match br_throws
             (failingBrowser (JError "ElementClickInterceptedError"
                                "Other element would receive the click: <p>"
                                JUndefined))
             ([] ++ [ActOriginalClick 7]) (ActOriginalClick 7) with
     | Some e2 => Throw e2
     | None => Normal tt
     end,
     [] ++ [ActOriginalClick 7; ActOriginalClick 7]).
Proof.
  apply (elementClick_retries_once
           (failingBrowser (JError "ElementClickInterceptedError"
                              "Other element would receive the click: <p>"
                              JUndefined))
           10000 7 [] "Other element would receive the click: <p>" JUndefined).
  - reflexivity.
  - reflexivity.
  - reflexivity.
Defined.


(** Half a second of guard within a timeout of ten seconds. *)
Lemma assertElementNotPresent_time_budget_witness :
  exists new,
    snd (assertElementNotPresent (quietBrowser ["main"]) sampleCssToXPath
           locatorString (JError "AssertionError" "false == true" JUndefined)
           10000 (LocString ".modal") (LocString "") 500 10000 [])
    = [] ++ new
    /\ (askedTime new = 0 \/ askedTime new = 500 \/ askedTime new = 10000)%Z
    /\ (new = [] \/ askedTime new <= 10000)%Z
    /\ (forall locator limit, In (ActWaitNotPresent locator limit) new ->
                              (0 < limit)%Z)
    /\ (fst (assertElementNotPresent (quietBrowser ["main"]) sampleCssToXPath
               locatorString (JError "AssertionError" "false == true" JUndefined)
               10000 (LocString ".modal") (LocString "") 500 10000 [])
        = Normal tt -> askedTime new = 10000%Z).
Proof.
  apply (assertElementNotPresent_time_budget (quietBrowser ["main"]) sampleCssToXPath
           locatorString (JError "AssertionError" "false == true" JUndefined)
           10000 (LocString ".modal") (LocString "") 500 10000 []).
  - reflexivity.
  - lia.
Defined.
